(** * dth-web: the rating validator and the create/list user endpoints

    A shallow embedding of [app/main.py] and [app/db/db.py].

    Python's [float] is IEEE 754 binary64.  It is modelled with the Standard
    Library's [SpecFloat] at precision 53 and maximal exponent 1024, so that
    [value * 2], [round], the subtraction and the comparisons of
    [UserCreate.rating_must_be_valid] are the operations the interpreter
    performs, rounding included.  Statements about the validator are then
    phrased over the exact rational value of the number it receives.

    The table is kept by SQLite, the storage engine [app/db/db.py] names.
    It stores the bound [float] as it is and evaluates the two checked
    constraints on that number; the column type [DECIMAL(2, 1)] only shows
    when a row is read, as one digit after the point. *)

From Stdlib Require Import ZArith QArith Qabs Bool List String Lia.
From Stdlib Require Import SpecFloat.
Import ListNotations.

Local Open Scope string_scope.
Local Open Scope list_scope.
Local Open Scope Z_scope.

(** ** Binary64 numbers *)

Module B64.

Definition prec : Z := 53.
Definition emax : Z := 1024.

Definition float := spec_float.

(** Smallest exponent of a binary64 number, [-1074]. *)
Definition emin : Z := Eval cbv in SpecFloat.emin prec emax.

(** Well-formed representations: the mantissa is canonical for its exponent
    and the exponent is in range.  Every number the interpreter handles is
    of this form. *)
Definition valid (x : float) : bool := valid_binary prec emax x.

Definition is_finite (x : float) : bool :=
  match x with
  | S754_zero _ | S754_finite _ _ _ => true
  | _ => false
  end.

Definition mul : float -> float -> float := SFmul prec emax.
Definition sub : float -> float -> float := SFsub prec emax.
Definition div : float -> float -> float := SFdiv prec emax.
Definition abs : float -> float := SFabs.
Definition leb : float -> float -> bool := SFleb.
Definition ltb : float -> float -> bool := SFltb.

(** The number nearest to an integer (ties to even). *)
Definition of_Z (n : Z) : float := binary_normalize prec emax n 0 false.

(** The value of a finite number counted in units of [2^emin]; an integer,
    since every binary64 number is a multiple of [2^-1074]. *)
Definition F2Z (x : float) : Z :=
  match x with
  | S754_finite s m e => cond_Zopp s (Zpos m * 2 ^ (e - emin))
  | _ => 0
  end.

(** [2^1074], the number of units in [1.0]. *)
Definition unit_den : positive := Eval vm_compute in (2 ^ 1074)%positive.
Definition U : Z := Zpos unit_den.

(** The exact rational value of a finite number. *)
Definition F2Q (x : float) : Q := Qmake (F2Z x) unit_den.

End B64.

(** ** The Python built-ins the validator uses *)

Inductive exn :=
| ValueError (msg : string)
| OverflowError (msg : string)
| HTTPException (status_code : Z) (detail : string)
| IntegrityError (constraint : string)
| InvalidRequestError (msg : string).

(** The integer nearest to [n / d] for [0 < d], halves going to the even
    neighbour. *)
Definition round_half_even_div (n d : Z) : Z :=
  let q := n / d in
  match 2 * (n mod d) ?= d with
  | Lt => q
  | Gt => q + 1
  | Eq => if Z.even q then q else q + 1
  end.

(** [round(x)] with one argument: the nearest [int], halves to even; it
    raises on infinities and NaN. *)
Definition round (x : B64.float) : exn + Z :=
  match x with
  | S754_zero _ => inr 0
  | S754_finite s m e =>
      inr (cond_Zopp s (if 0 <=? e then Zpos m * 2 ^ e
                        else round_half_even_div (Zpos m) (2 ^ (- e))))
  | S754_infinity _ => inl (OverflowError "cannot convert float infinity to integer")
  | S754_nan => inl (ValueError "cannot convert float NaN to integer")
  end.

(** The conversion applied to the [int] operand of a mixed [float]/[int]
    operation. *)
Definition float_of_int (n : Z) : exn + B64.float :=
  match B64.of_Z n with
  | S754_infinity _ => inl (OverflowError "int too large to convert to float")
  | x => inr x
  end.

(** ** Validation layer: [UserCreate] of [app/main.py] *)

(** [EmailStr]: the address syntax check of the validation library.  It
    returns the normalised address, or the reason why the string is not an
    address. *)
Class EmailStr := { validate_email : string -> string + string }.

(** A JSON value that is neither [null] nor a number. *)
Inductive json_other :=
| JString (s : string)
| JBool (b : bool)
| JArray
| JObject.

(** The conversion the validation library tries on a value that is not a
    number where the model declares [float]: it gives the number the value
    is read as (the string ['4.5'] is read as [4.5]), or the message of the
    type error. *)
Class LaxFloat := {
  lax_float : json_other -> string + B64.float;
  lax_float_valid : forall j v, lax_float j = inr v -> B64.valid v = true
}.

(** One entry of the [detail] list of a 422 response. *)
Record error_detail := { loc : string; msg : string }.

(** The JSON body of [POST /users/].  The [rating] member may be left out,
    be [null], carry a number, or carry some other value. *)
Module Body.

Inductive rating_member :=
| Omitted
| Null
| Number (v : B64.float)
| Other (j : json_other).

Record t := {
  username : string;
  email : string;
  full_name : option string;
  rating : rating_member
}.

End Body.

Module UserCreate.

Record t := {
  username : string;
  email : string;
  full_name : option string;
  rating : B64.float
}.

(** The literals [1.0], [5.0], [2], [1e-9] and the default [3.0]. *)
Definition lit_1_0 : B64.float := Eval vm_compute in B64.of_Z 1.
Definition lit_5_0 : B64.float := Eval vm_compute in B64.of_Z 5.
Definition lit_2 : B64.float := Eval vm_compute in B64.of_Z 2.
Definition epsilon : B64.float :=
  Eval vm_compute in B64.div (B64.of_Z 1) (B64.of_Z (10 ^ 9)).
Definition default_rating : B64.float := Eval vm_compute in B64.of_Z 3.

Definition null_message : string :=
  "Rating cannot be null. Omit the field to use the default or provide a valid float value".
Definition range_message : string := "Rating must be between 1.0 and 5.0".
Definition increment_message : string :=
  "Rating must be in increments of 0.5 (e.g., 1.0, 1.5, 2.0)".

(** [rating_must_be_valid(cls, value)]; [None] stands for Python's [None]. *)
Definition rating_must_be_valid (value : option B64.float) : exn + B64.float :=
  match value with
  | None => inl (ValueError null_message)
  | Some value =>
    if negb (B64.leb lit_1_0 value && B64.leb value lit_5_0)
    then inl (ValueError range_message)
    else
      let scaled_value := B64.mul value lit_2 in
      match round scaled_value with
      | inl e => inl e
      | inr rounded =>
        match float_of_int rounded with
        | inl e => inl e
        | inr rounded_f =>
          if B64.ltb epsilon (B64.abs (B64.sub scaled_value rounded_f))
             || negb (rounded mod 1 =? 0)
          then inl (ValueError increment_message)
          else inr value
        end
      end
  end.

(** The message of the type error of a [float] field that is given [null]
    ([tests/test_main.py] looks for it in the response). *)
Definition float_type_message : string := "Input should be a valid number".

(** Modelled from the spec: the type check of the field [rating: float],
    which the validation library (pydantic) runs before the field validator
    and which is not part of [app/main.py].  Section 9 of the specification:
    an explicit null fails a basic type check rather than triggering the
    default; section 4.2: a member left out takes the default.  The result
    is the entry of the type error, or the number handed on: [None] for a
    member left out. *)
Definition float_type_check `{LaxFloat} (r : Body.rating_member)
  : error_detail + option B64.float :=
  match r with
  | Body.Omitted => inr None
  | Body.Null => inl {| loc := "rating"; msg := float_type_message |}
  | Body.Number v => inr (Some v)
  | Body.Other j =>
    match lax_float j with
    | inl m => inl {| loc := "rating"; msg := m |}
    | inr v => inr (Some v)
    end
  end.

(** An exception raised in a field validator is reported with this prefix. *)
Definition value_error_prefix : string := "Value error, ".

(** The entry of a string that is not an address ends with the reason. *)
Definition email_message (reason : string) : string :=
  String.append "value is not a valid email address: " reason.

(** The field [rating: float = 3.0] with its validator.  The default is not
    validated; a value that fails the type check never reaches the
    validator; a [ValueError] of the validator becomes an error entry and
    any other exception propagates. *)
Definition validate_rating `{LaxFloat} (r : Body.rating_member)
  : exn + (error_detail + B64.float) :=
  match float_type_check r with
  | inl d => inr (inl d)
  | inr None => inr (inr default_rating)
  | inr (Some v) =>
    match rating_must_be_valid (Some v) with
    | inr v' => inr (inr v')
    | inl (ValueError m) =>
        inr (inl {| loc := "rating"; msg := String.append value_error_prefix m |})
    | inl e => inl e
    end
  end.

(** Validation of a whole body: the errors of all fields are collected, in
    the order of the fields. *)
Definition model_validate `{EmailStr} `{LaxFloat} (b : Body.t)
  : exn + (list error_detail + t) :=
  match validate_rating (Body.rating b) with
  | inl e => inl e
  | inr r =>
    match validate_email (Body.email b), r with
    | inr e, inr v =>
        inr (inr {| username := Body.username b; email := e;
                    full_name := Body.full_name b; rating := v |})
    | e, r =>
        inr (inl ((match e with
                   | inl reason => [{| loc := "email"; msg := email_message reason |}]
                   | inr _ => []
                   end) ++
                  (match r with
                   | inl d => [d]
                   | inr _ => []
                   end))%list)
    end
  end.

End UserCreate.

(** ** Persistence schema: [User] of [app/db/db.py] *)

(** [db.py] declares the columns and the two checked constraints; what they
    do to a [float] is decided by the storage engine, which the repository
    takes to be SQLite ([db.py], line 12, and the test suite).  There the
    column type [DECIMAL(2, 1)] neither rounds nor bounds what is stored:
    the number is kept as it was bound, the constraints are evaluated on
    it, and one digit after the point is all that is left of the type, on
    the way out. *)

Module User.

(** A row of [users].  The column [rating] holds the number that was bound,
    or [NULL] ([None]). *)
Record t := {
  id : Z;
  username : string;
  email : string;
  full_name : option string;
  rating : option B64.float
}.

(** The value the driver binds for a [float]: a NaN is bound as [NULL],
    every other number as it is. *)
Definition bind_rating (v : B64.float) : option B64.float :=
  match v with
  | S754_nan => None
  | _ => Some v
  end.

(** [CheckConstraint('rating >= 1.0 AND rating <= 5.0')]; a check on a
    [NULL] passes. *)
Definition ck_users_rating_range (rating : option B64.float) : bool :=
  match rating with
  | None => true
  | Some r => B64.leb UserCreate.lit_1_0 r && B64.leb r UserCreate.lit_5_0
  end.

Definition int64_min : Z := - 2 ^ 63.
Definition int64_max : Z := 2 ^ 63 - 1.

(** The cast of a number to [INTEGER], which both operands of [%] undergo:
    the fraction is dropped and the result kept within 64 bits.  (A NaN
    does not get here: it is [NULL] to the engine.) *)
Definition cast_integer (x : B64.float) : Z :=
  match x with
  | S754_zero _ | S754_nan => 0
  | S754_infinity s => if s then int64_min else int64_max
  | S754_finite s m e =>
      Z.max int64_min
        (Z.min int64_max
           (cond_Zopp s (if 0 <=? e then Zpos m * 2 ^ e else Zpos m / 2 ^ (- e))))
  end.

(** The literal [10] as the other operand of a product with a number. *)
Definition lit_10 : B64.float := Eval vm_compute in B64.of_Z 10.

(** [CheckConstraint('(rating * 10) % 5 = 0')]: the product is a binary64
    product, [%] works on the integer parts and takes the sign of the
    dividend; a check on a [NULL] passes. *)
Definition ck_users_rating_increment (rating : option B64.float) : bool :=
  match rating with
  | None => true
  | Some r => Z.rem (cast_integer (B64.mul r lit_10)) 5 =? 0
  end.

(** [DECIMAL(precision=2, scale=1)] on the way out: the stored number is
    written with one digit after the point (["%.1f"]), halves of the last
    digit going to the even neighbour.  The result is the number of
    tenths. *)
Definition to_decimal (v : B64.float) : Z :=
  round_half_even_div (10 * B64.F2Z v) B64.U.

(** The [float] nearest to [r] tenths. *)
Definition of_decimal (r : Z) : B64.float :=
  match r with
  | 0 => S754_zero false
  | Zpos p => SFdiv B64.prec B64.emax (S754_finite false p 0) (S754_finite false 10 0)
  | Zneg p => SFdiv B64.prec B64.emax (S754_finite true p 0) (S754_finite false 10 0)
  end.

(** The [float] a stored rating is read as: the number nearest to its
    decimal with one digit. *)
Definition read_rating (v : B64.float) : B64.float :=
  match v with
  | S754_finite s _ _ =>
      let r := to_decimal v in
      if r =? 0 then S754_zero s else of_decimal r
  | _ => v
  end.

End User.

Module UserResponse.

Record t := {
  id : Z;
  username : string;
  email : string;
  full_name : option string;
  rating : option B64.float
}.

(** Serialisation of a record read from the table ([orm_mode]). *)
Definition from_orm (u : User.t) : t :=
  {| id := User.id u; username := User.username u; email := User.email u;
     full_name := User.full_name u;
     rating := option_map User.read_rating (User.rating u) |}.

End UserResponse.

(** ** The storage session *)

(** The [users] table: its rows in insertion order. *)
Definition table := list User.t.

Inductive statement := SELECT | INSERT.

(** A computation in a session: it reads and updates the table, may raise,
    and leaves a trace of the statements it sent to the storage engine. *)
Definition Session (A : Type) : Type :=
  table -> (exn + A) * table * list statement.

Definition ret {A} (a : A) : Session A := fun tbl => (inr a, tbl, []).

Definition raise {A} (e : exn) : Session A := fun tbl => (inl e, tbl, []).

Definition bind {A B} (m : Session A) (f : A -> Session B) : Session B :=
  fun tbl =>
    let '(r, tbl1, l1) := m tbl in
    match r with
    | inl e => (inl e, tbl1, l1)
    | inr a => let '(r2, tbl2, l2) := f a tbl1 in (r2, tbl2, (l1 ++ l2)%list)
    end.

Notation "x <- m ;; k" := (bind m (fun x => k))
  (at level 61, m at next level, right associativity).

(** [db.query(User).filter(p).first()] *)
Definition query_filter_first (p : User.t -> bool) : Session (option User.t) :=
  fun tbl => (inr (find p tbl), tbl, [SELECT]).

(** Modelled from the spec: the order in which a query without a sort key
    returns the rows, which the storage engine decides and [app/main.py]
    does not.  Sections 4.3 and 8 of the specification take the order of
    creation, which is the order of the table here.

    [db.query(User).offset(skip).limit(limit).all()]: a negative [OFFSET]
    counts as zero and a negative [LIMIT] as no limit.  The integers of the
    engine have 64 bits, and [skip] and [limit] are taken to be such. *)
Definition query_offset_limit_all (skip limit : Z) : Session (list User.t) :=
  fun tbl =>
    let rows := skipn (Z.to_nat skip) tbl in
    (inr (if limit <? 0 then rows else firstn (Z.to_nat limit) rows), tbl, [SELECT]).

(** The key of the next row ([autoincrement=True]). *)
Definition next_id (tbl : table) : Z :=
  fold_right Z.max 0 (map User.id tbl) + 1.

(** The first constraint of the table a new row would violate; the checked
    constraints are tested before the unique ones. *)
Definition violated_constraint (tbl : table) (row : User.t) : option string :=
  if negb (User.ck_users_rating_range (User.rating row))
  then Some "ck_users_rating_range"
  else if negb (User.ck_users_rating_increment (User.rating row))
  then Some "ck_users_rating_increment"
  else if existsb (fun u => User.username u =? User.username row)%string tbl
  then Some "users.username"
  else if existsb (fun u => User.email u =? User.email row)%string tbl
  then Some "users.email"
  else None.

(** The row [create_user] sends for [user] when the table is [tbl]. *)
Definition new_row (tbl : table) (user : UserCreate.t) : User.t :=
  {| User.id := next_id tbl;
     User.username := UserCreate.username user;
     User.email := UserCreate.email user;
     User.full_name := UserCreate.full_name user;
     User.rating := User.bind_rating (UserCreate.rating user) |}.

(** [db.add(db_user); db.commit()] for the [User] built from the fields of
    [user]: one [INSERT], which either appends the row or raises and leaves
    the table as it was.  The result is the key of the new row. *)
Definition add_commit (values : UserCreate.t) : Session Z :=
  fun tbl =>
    let row := new_row tbl values in
    match violated_constraint tbl row with
    | Some c => (inl (IntegrityError c), tbl, [INSERT])
    | None => (inr (User.id row), (tbl ++ [row])%list, [INSERT])
    end.

(** [db.refresh(db_user)]: the stored row is read back. *)
Definition refresh (pk : Z) : Session User.t :=
  fun tbl =>
    match find (fun u => User.id u =? pk) tbl with
    | Some u => (inr u, tbl, [SELECT])
    | None => (inl (InvalidRequestError "could not refresh instance"), tbl, [SELECT])
    end.

(** ** Service endpoints of [app/main.py] *)

Definition create_user (user : UserCreate.t) : Session User.t :=
  db_user_by_username <-
    query_filter_first (fun u => User.username u =? UserCreate.username user)%string ;;
  match db_user_by_username with
  | Some _ => raise (HTTPException 400 "Username already registered")
  | None =>
    db_user_by_email <-
      query_filter_first (fun u => User.email u =? UserCreate.email user)%string ;;
    match db_user_by_email with
    | Some _ => raise (HTTPException 400 "Email already registered")
    | None =>
      pk <- add_commit user ;;
      db_user <- refresh pk ;;
      ret db_user
    end
  end.

Definition read_users (skip limit : Z) : Session (list User.t) :=
  users <- query_offset_limit_all skip limit ;;
  ret users.

(** What the framework sends back. *)
Inductive response :=
| Ok_user (u : UserResponse.t)
| Ok_users (us : list UserResponse.t)
| Error_detail (status_code : Z) (detail : string)
| Unprocessable (detail : list error_detail)
| Internal_server_error.

Definition response_of_exn (e : exn) : response :=
  match e with
  | HTTPException status_code detail => Error_detail status_code detail
  | _ => Internal_server_error
  end.

(** The entries of a 422 response repeat the value that was refused, and an
    infinity or a NaN cannot be written as JSON. *)
Definition serialisable (b : Body.t) : bool :=
  match Body.rating b with
  | Body.Number v => B64.is_finite v
  | _ => true
  end.

(** [POST /users/]: the body is validated first; only a valid body reaches
    [create_user] and the storage session.  An exception nobody catches,
    that of a refused [INSERT] included, ends in a 500 response. *)
Definition post_users `{EmailStr} `{LaxFloat} (b : Body.t) (tbl : table)
  : response * table * list statement :=
  match UserCreate.model_validate b with
  | inl _ => (Internal_server_error, tbl, [])
  | inr (inl errors) =>
      if serialisable b then (Unprocessable errors, tbl, [])
      else (Internal_server_error, tbl, [])
  | inr (inr user) =>
    let '(r, tbl', trace) := create_user user tbl in
    match r with
    | inr db_user => (Ok_user (UserResponse.from_orm db_user), tbl', trace)
    | inl e => (response_of_exn e, tbl', trace)
    end
  end.

(** [GET /users/?skip=&limit=] *)
Definition get_users (skip limit : Z) (tbl : table)
  : response * table * list statement :=
  let '(r, tbl', trace) := read_users skip limit tbl in
  match r with
  | inr users => (Ok_users (map UserResponse.from_orm users), tbl', trace)
  | inl e => (response_of_exn e, tbl', trace)
  end.

(** Several users created one after the other. *)
Fixpoint create_users (users : list UserCreate.t) : Session (list User.t) :=
  match users with
  | [] => ret []
  | user :: rest =>
    db_user <- create_user user ;;
    db_users <- create_users rest ;;
    ret (db_user :: db_users)
  end.

(** ** The rating rule in exact arithmetic *)

(** The integer nearest to a rational, halves to even. *)
Definition Qround_half_even (q : Q) : Z :=
  round_half_even_div (Qnum q) (Zpos (Qden q)).

(** [1e-9] *)
Definition tolerance : Q := 1 # 1000000000.

(** [|q*2 - round(q*2)|], computed without rounding error. *)
Definition off_grid (q : Q) : Q :=
  Qabs (q * 2 - inject_Z (Qround_half_even (q * 2))).

(** The two checks of the validator, on an exact value. *)
Definition rating_rule (q : Q) : exn + unit :=
  if negb (Qle_bool 1 q && Qle_bool q 5)
  then inl (ValueError UserCreate.range_message)
  else if Qle_bool (off_grid q) tolerance then inr tt
  else inl (ValueError UserCreate.increment_message).

(** The range check of the validator. *)
Definition in_range (value : B64.float) : bool :=
  B64.leb UserCreate.lit_1_0 value && B64.leb value UserCreate.lit_5_0.

(** The validator lets the value through. *)
Definition accepted (v : B64.float) : Prop :=
  UserCreate.rating_must_be_valid (Some v) = inr v.

(** The nine ratings [1.0, 1.5, ..., 5.0]. *)
Definition allowed_ratings : list Q :=
  [1; 3 # 2; 2; 5 # 2; 3; 7 # 2; 4; 9 # 2; 5]%Q.

(** [q] is one of the nine ratings up to the tolerance on [q*2]. *)
Definition near_allowed (q : Q) : Prop :=
  Exists (fun a => Qabs (q * 2 - a * 2) <= tolerance)%Q allowed_ratings.

(** [q] is one of the nine ratings or above one by no more than the
    tolerance on [q*2]. *)
Definition at_or_above_allowed (q : Q) : Prop :=
  Exists (fun a => 0 <= q * 2 - a * 2 <= tolerance)%Q allowed_ratings.

(** [q] is below one of the nine ratings by no more than the tolerance on
    [q*2]. *)
Definition just_below_allowed (q : Q) : Prop :=
  Exists (fun a => - tolerance <= q * 2 - a * 2 < 0)%Q allowed_ratings.

(** The rule as the specification words it: in the range and [q*2] an
    integer. *)
Definition half_step_rule (q : Q) : Prop :=
  (1 <= q <= 5)%Q /\ exists n : Z, (q * 2 == inject_Z n)%Q.

(** [x] is a binary64 number nearest to [q]: the number a decimal literal
    for [q] denotes. *)
Definition nearest_double (q : Q) (x : B64.float) : Prop :=
  B64.valid x = true /\ B64.is_finite x = true /\
  forall y, B64.valid y = true -> B64.is_finite y = true ->
            (Qabs (B64.F2Q x - q) <= Qabs (B64.F2Q y - q))%Q.

(** Both checked constraints of the table, as the storage engine evaluates
    them on a number. *)
Definition checked_constraints (x : B64.float) : bool :=
  User.ck_users_rating_range (Some x) && User.ck_users_rating_increment (Some x).

(** The rating of [user], as it is bound, passes both checked constraints. *)
Definition passes_checks (user : UserCreate.t) : bool :=
  User.ck_users_rating_range (User.bind_rating (UserCreate.rating user)) &&
  User.ck_users_rating_increment (User.bind_rating (UserCreate.rating user)).

(** ** Tables and requests *)

Definition username_taken (tbl : table) (name : string) : Prop :=
  exists u, In u tbl /\ User.username u = name.

Definition email_taken (tbl : table) (address : string) : Prop :=
  exists u, In u tbl /\ User.email u = address.

(** The three components of what a request leaves behind. *)
Definition outcome {A} (x : A * table * list statement) : A := fst (fst x).
Definition table_after {A} (x : A * table * list statement) : table := snd (fst x).
Definition trace {A} (x : A * table * list statement) : list statement := snd x.

(** The request succeeded with a newly stored record. *)
Definition succeeds (out : response * table * list statement) : Prop :=
  exists u, outcome out = Ok_user u.

(** ** Sample data *)

(** An [EmailStr] that accepts every string as it is. *)
Definition permissive_email : EmailStr := {| validate_email := fun s => inr s |}.

(** A [LaxFloat] that reads no value as a number. *)
Definition numbers_only : LaxFloat.
Proof.
  refine {| lax_float := fun _ => inl "Input should be a valid number" |}.
  intros j v H. discriminate H.
Defined.

(** The largest number below [1.0], [1 - 2^-53]. *)
Definition below_one : B64.float := S754_finite false 9007199254740991 (-53).

(** The smallest number above [1.0], [1 + 2^-52]. *)
Definition above_one : B64.float := S754_finite false 4503599627370497 (-52).

(** The smallest number above [5.0], [5 + 2^-50]. *)
Definition above_five : B64.float := S754_finite false 5629499534213121 (-50).

(** The largest number below [4.5], [4.5 - 2^-50]. *)
Definition below_4_5 : B64.float := S754_finite false 5066549580791807 (-50).

(** The number for [r] tenths is well-formed, within a twentieth of
    [r / 10], and is [r / 10] itself when that is a multiple of 0.5. *)
Definition read_back_close (r : Z) : bool :=
  let y := User.of_decimal r in
  B64.valid y && B64.is_finite y &&
  (2 * Z.abs (10 * B64.F2Z y - r * B64.U) <=? B64.U) &&
  (if r mod 5 =? 0 then 10 * B64.F2Z y =? r * B64.U else true).

(** The number for [r] tenths is positive and normal; it is [r / 10] itself
    when that is a multiple of 0.5, and otherwise it is not a power of two
    and lies within less than half a spacing of [r / 10]. *)
Definition strictly_nearest (r : Z) : bool :=
  match User.of_decimal r with
  | S754_finite false m e =>
      B64.valid (S754_finite false m e) &&
      (if r mod 5 =? 0 then 10 * (Zpos m * 2 ^ (e - B64.emin)) =? r * B64.U
       else (2 ^ 52 <? Zpos m) &&
            (Z.abs (10 * (Zpos m * 2 ^ (e - B64.emin)) - r * B64.U) <? 5 * 2 ^ (e - B64.emin)))
  | _ => false
  end.

Definition lit_0_5 : B64.float := Eval vm_compute in User.of_decimal 5.
Definition lit_2_5 : B64.float := Eval vm_compute in User.of_decimal 25.
Definition lit_3_2 : B64.float := Eval vm_compute in User.of_decimal 32.
Definition lit_4_5 : B64.float := Eval vm_compute in User.of_decimal 45.
Definition lit_5_5 : B64.float := Eval vm_compute in User.of_decimal 55.
Definition lit_5_7 : B64.float := Eval vm_compute in User.of_decimal 57.

(** [1.06], a number off the grid whose tenfold has the integer part 10. *)
Definition lit_1_06 : B64.float :=
  Eval vm_compute in B64.div (B64.of_Z 106) (B64.of_Z 100).

Definition user_names : list string :=
  ["user_0"; "user_1"; "user_2"; "user_3"; "user_4";
   "user_5"; "user_6"; "user_7"; "user_8"; "user_9"].

Definition sample_user (name : string) : UserCreate.t :=
  {| UserCreate.username := name;
     UserCreate.email := String.append name "@example.com";
     UserCreate.full_name := None;
     UserCreate.rating := UserCreate.default_rating |}.

Definition sample_body (name : string) (r : Body.rating_member) : Body.t :=
  {| Body.username := name;
     Body.email := String.append name "@example.com";
     Body.full_name := None;
     Body.rating := r |}.

Definition sample_row : User.t :=
  {| User.id := 1; User.username := "existinguser";
     User.email := "existing@example.com"; User.full_name := None;
     User.rating := Some UserCreate.default_rating |}.

(** A user object with a rating of one's choice, as a caller that skips the
    validation layer could build it. *)
Definition sample_user_rated (name : string) (r : B64.float) : UserCreate.t :=
  {| UserCreate.username := name;
     UserCreate.email := String.append name "@example.com";
     UserCreate.full_name := None;
     UserCreate.rating := r |}.

(** ** Tables a sequence of requests can produce *)

(** What the schema declares of the table: keys, names and addresses are
    pairwise different and every rating passes both checked constraints, as
    the storage engine evaluates them. *)
Definition table_ok (tbl : table) : Prop :=
  NoDup (map User.id tbl) /\ NoDup (map User.username tbl) /\
  NoDup (map User.email tbl) /\
  Forall (fun u => User.ck_users_rating_range (User.rating u) = true /\
                   User.ck_users_rating_increment (User.rating u) = true) tbl.

(** The table after a sequence of [POST /users/] requests. *)
Definition serve `{EmailStr} `{LaxFloat} (bodies : list Body.t) (tbl : table) : table :=
  fold_left (fun t b => table_after (post_users b t)) bodies tbl.

(** What a stored rating is after the validation: a number the validator
    accepts, at one of the nine ratings or just above. *)
Definition validated_rating (u : User.t) : Prop :=
  exists v, User.rating u = Some v /\ B64.valid v = true /\ accepted v /\
            at_or_above_allowed (B64.F2Q v).

(** * Properties *)

Import B64.

(** ** Binary64: representation, order and exact operations *)

(** The number of binary digits of a mantissa. *)
Lemma digits2_pos_size m : digits2_pos m = Pos.size m.
Proof. induction m; simpl; congruence. Qed.

Lemma digits2_bounds m :
  2 ^ (Zpos (digits2_pos m) - 1) <= Zpos m < 2 ^ Zpos (digits2_pos m).
Proof.
  rewrite digits2_pos_size.
  induction m as [m IH | m IH |]; [| | cbn; lia];
    cbn [Pos.size]; rewrite Pos2Z.inj_succ;
    replace (Z.succ (Zpos (Pos.size m)) - 1) with (Zpos (Pos.size m)) by lia;
    rewrite Z.pow_succ_r by lia;
    assert (H2 : 2 ^ Zpos (Pos.size m) = 2 * 2 ^ (Zpos (Pos.size m) - 1))
      by (rewrite <- Z.pow_succ_r by lia; f_equal; lia);
    lia.
Qed.

Lemma fexp_eq x : fexp prec emax x = Z.max (x - 53) (-1074).
Proof. reflexivity. Qed.

(** A well-formed finite number is normal (53 digits) or subnormal (fewer
    digits at the smallest exponent). *)
Lemma valid_finite s m e :
  valid (S754_finite s m e) = true <->
  (-1074 <= e <= 971 /\
   ((Zpos (digits2_pos m) = 53) \/ (e = -1074 /\ Zpos (digits2_pos m) < 53))).
Proof.
  unfold valid, valid_binary, bounded, canonical_mantissa.
  rewrite andb_true_iff, Z.eqb_eq, Z.leb_le, fexp_eq.
  change (emax - prec) with 971. lia.
Qed.

(** Bounds on the exponent and the mantissa of a well-formed number. *)
Lemma valid_bounds s m e :
  valid (S754_finite s m e) = true ->
  -1074 <= e <= 971 /\ Zpos m < 2 ^ 53 /\ (-1074 < e -> 2 ^ 52 <= Zpos m).
Proof.
  rewrite valid_finite. intros [He Hd].
  pose proof (digits2_bounds m) as Hm.
  split; [exact He|]. split.
  - destruct Hd as [Hd | [_ Hd]].
    + rewrite Hd in Hm. lia.
    + apply Z.lt_trans with (1 := proj2 Hm).
      apply Z.pow_lt_mono_r; lia.
  - intros Hlt. destruct Hd as [Hd | [Hd _]]; [|lia].
    rewrite Hd in Hm. exact (proj1 Hm).
Qed.

(** Of two well-formed numbers the one with the smaller exponent is the
    smaller in magnitude. *)
Lemma mag_lt s1 m1 e1 s2 m2 e2 :
  valid (S754_finite s1 m1 e1) = true ->
  valid (S754_finite s2 m2 e2) = true ->
  e1 < e2 ->
  Zpos m1 * 2 ^ (e1 - emin) < Zpos m2 * 2 ^ (e2 - emin).
Proof.
  intros H1 H2 Hlt.
  apply valid_bounds in H1. apply valid_bounds in H2.
  destruct H1 as (He1 & Hm1 & _). destruct H2 as (He2 & _ & Hm2).
  unfold emin.
  assert (Hp : 0 < 2 ^ (e1 - -1074)) by (apply Z.pow_pos_nonneg; lia).
  assert (Hq : 2 * 2 ^ (e1 - -1074) <= 2 ^ (e2 - -1074)).
  { rewrite <- Z.pow_succ_r by lia. apply Z.pow_le_mono_r; lia. }
  specialize (Hm2 ltac:(lia)).
  change (2 ^ 53) with (2 * 2 ^ 52) in Hm1.
  assert (H52 : 0 < 2 ^ 52) by reflexivity.
  generalize dependent (2 ^ 52). intros c Hm1 Hm2 Hc.
  generalize dependent (2 ^ (e1 - -1074)). intros p Hp Hq.
  generalize dependent (2 ^ (e2 - -1074)). intros q Hq.
  nia.
Qed.

(** The comparison of well-formed finite numbers is the comparison of their
    values. *)
Lemma SFcompare_finite s1 m1 e1 s2 m2 e2 :
  valid (S754_finite s1 m1 e1) = true ->
  valid (S754_finite s2 m2 e2) = true ->
  SFcompare (S754_finite s1 m1 e1) (S754_finite s2 m2 e2)
  = Some (F2Z (S754_finite s1 m1 e1) ?= F2Z (S754_finite s2 m2 e2)).
Proof.
  intros H1 H2.
  pose proof (mag_lt _ _ _ _ _ _ H1 H2) as Hlt.
  pose proof (mag_lt _ _ _ _ _ _ H2 H1) as Hgt.
  assert (Hp1 : 0 < Zpos m1 * 2 ^ (e1 - emin)).
  { apply valid_bounds in H1. apply Z.mul_pos_pos; [lia|].
    apply Z.pow_pos_nonneg; unfold emin; lia. }
  assert (Hp2 : 0 < Zpos m2 * 2 ^ (e2 - emin)).
  { apply valid_bounds in H2. apply Z.mul_pos_pos; [lia|].
    apply Z.pow_pos_nonneg; unfold emin; lia. }
  assert (Heq : e1 = e2 ->
     (Zpos m1 * 2 ^ (e1 - emin) ?= Zpos m2 * 2 ^ (e2 - emin)) = (m1 ?= m2)%positive).
  { intros ->. rewrite <- Zmult_compare_compat_r; [reflexivity|].
    apply valid_bounds in H2. apply Z.lt_gt, Z.pow_pos_nonneg; unfold emin; lia. }
  destruct s1, s2; cbn [SFcompare F2Z cond_Zopp]; f_equal.
  - rewrite Z.compare_opp.
    destruct (Z.compare_spec e1 e2) as [E | E | E].
    + rewrite Z.compare_antisym, (Heq E). reflexivity.
    + symmetry. apply Z.compare_gt_iff. auto.
    + symmetry. apply Z.compare_lt_iff. auto.
  - symmetry. apply Z.compare_lt_iff. lia.
  - symmetry. apply Z.compare_gt_iff. lia.
  - destruct (Z.compare_spec e1 e2) as [E | E | E].
    + rewrite (Heq E). reflexivity.
    + symmetry. apply Z.compare_lt_iff. auto.
    + symmetry. apply Z.compare_gt_iff. auto.
Qed.

Lemma F2Z_sign s m e :
  valid (S754_finite s m e) = true ->
  if s then F2Z (S754_finite s m e) < 0 else 0 < F2Z (S754_finite s m e).
Proof.
  intros H. apply valid_bounds in H.
  assert (0 < Zpos m * 2 ^ (e - emin)).
  { apply Z.mul_pos_pos; [lia|]. apply Z.pow_pos_nonneg; unfold emin; lia. }
  destruct s; cbn [F2Z cond_Zopp]; lia.
Qed.

Lemma SFcompare_correct x y :
  valid x = true -> valid y = true ->
  is_finite x = true -> is_finite y = true ->
  SFcompare x y = Some (F2Z x ?= F2Z y).
Proof.
  intros Hx Hy Fx Fy.
  destruct x as [sx | sx | | sx mx ex]; try discriminate;
  destruct y as [sy | sy | | sy my ey]; try discriminate.
  - reflexivity.
  - pose proof (F2Z_sign _ _ _ Hy) as S.
    cbn [SFcompare]. f_equal. change (F2Z (S754_zero sx)) with 0.
    destruct sy; symmetry; [apply Z.compare_gt_iff | apply Z.compare_lt_iff]; exact S.
  - pose proof (F2Z_sign _ _ _ Hx) as S.
    cbn [SFcompare]. f_equal. change (F2Z (S754_zero sy)) with 0.
    destruct sx; symmetry; [apply Z.compare_lt_iff | apply Z.compare_gt_iff]; exact S.
  - apply SFcompare_finite; assumption.
Qed.

(** Rounding leaves a canonical mantissa as it is. *)
Lemma round_aux_canonical s m e :
  canonical_mantissa prec emax m e = true ->
  binary_round_aux prec emax s (Zpos m) e loc_Exact
  = if e <=? 971 then S754_finite s m e else S754_infinity s.
Proof.
  unfold canonical_mantissa. rewrite Z.eqb_eq. intros H.
  unfold binary_round_aux, shr_fexp. cbn [Zdigits2 shr_record_of_loc].
  rewrite H, Z.sub_diag. cbn [shr shr_m loc_of_shr_record round_nearest_even Zdigits2 shr_record_of_loc].
  rewrite H, Z.sub_diag. cbn [shr shr_m]. reflexivity.
Qed.

Lemma iter_xO_val m d : Zpos (Pos.iter xO m d) = Zpos m * 2 ^ Zpos d.
Proof.
  induction d as [|d IH] using Pos.peano_ind.
  - cbn. lia.
  - rewrite Pos.iter_succ, Pos2Z.inj_xO, IH, Pos2Z.inj_succ, Z.pow_succ_r by lia. lia.
Qed.

Lemma iter_xO_digits m d :
  Zpos (digits2_pos (Pos.iter xO m d)) = Zpos (digits2_pos m) + Zpos d.
Proof.
  induction d as [|d IH] using Pos.peano_ind.
  - cbn [Pos.iter digits2_pos]. lia.
  - rewrite Pos.iter_succ. cbn [digits2_pos]. lia.
Qed.

Lemma digits2_le_prec m : Zpos m < 2 ^ 53 -> Zpos (digits2_pos m) <= 53.
Proof.
  intros H. pose proof (digits2_bounds m) as [Hl _].
  assert (Hlt : 2 ^ (Zpos (digits2_pos m) - 1) < 2 ^ 53) by lia.
  apply Z.pow_lt_mono_r_iff in Hlt; lia.
Qed.

(** A value that fits 53 digits is represented exactly. *)
Lemma binary_round_exact s m e :
  Zpos m < 2 ^ 53 -> -1074 <= e <= 971 ->
  exists m' e',
    binary_round prec emax s m e = S754_finite s m' e' /\
    valid (S754_finite s m' e') = true /\
    Zpos m' * 2 ^ (e' - emin) = Zpos m * 2 ^ (e - emin).
Proof.
  intros Hm He. pose proof (digits2_le_prec m Hm) as Hd.
  unfold binary_round, shl_align.
  set (d := Zpos (digits2_pos m)) in *.
  assert (Hfe : fexp prec emax (d + e) <= e) by (rewrite fexp_eq; lia).
  assert (Hfl : -1074 <= fexp prec emax (d + e)) by (rewrite fexp_eq; lia).
  destruct (fexp prec emax (d + e) - e) as [|p|p] eqn:E; try lia.
  - assert (Ee : fexp prec emax (d + e) = e) by lia.
    rewrite round_aux_canonical
      by (unfold canonical_mantissa; fold d; rewrite Ee; apply Z.eqb_refl).
    replace (e <=? 971) with true by (symmetry; apply Z.leb_le; lia).
    exists m, e. split; [reflexivity|]. split; [|reflexivity].
    unfold valid, valid_binary, bounded, canonical_mantissa. fold d.
    rewrite Ee, Z.eqb_refl. apply Z.leb_le. change (emax - prec) with 971. lia.
  - set (fe := fexp prec emax (d + e)) in *.
    assert (Hc : canonical_mantissa prec emax (Pos.iter xO m p) fe = true).
    { unfold canonical_mantissa. rewrite iter_xO_digits. fold d.
      replace (d + Zpos p + fe) with (d + e) by lia. apply Z.eqb_refl. }
    rewrite round_aux_canonical by exact Hc.
    replace (fe <=? 971) with true by (symmetry; apply Z.leb_le; lia).
    exists (Pos.iter xO m p), fe. split; [reflexivity|]. split.
    + unfold valid, valid_binary, bounded. rewrite Hc. apply Z.leb_le.
      change (emax - prec) with 971. lia.
    + rewrite iter_xO_val, <- Z.mul_assoc, <- Z.pow_add_r by (unfold emin; lia).
      do 2 f_equal. lia.
Qed.

Lemma binary_normalize_exact n e :
  Z.abs n < 2 ^ 53 -> -1074 <= e <= 971 ->
  let r := binary_normalize prec emax n e false in
  valid r = true /\ is_finite r = true /\ F2Z r = n * 2 ^ (e - emin).
Proof.
  intros Hn He. destruct n as [|m|m]; cbn [binary_normalize].
  - repeat split.
  - destruct (binary_round_exact false m e) as (m' & e' & -> & Hv & Hval); [lia|lia|].
    cbn zeta. repeat split; [exact Hv|]. exact Hval.
  - destruct (binary_round_exact true m e) as (m' & e' & -> & Hv & Hval); [lia|lia|].
    cbn zeta. repeat split; [exact Hv|]. cbn [F2Z cond_Zopp]. rewrite Hval. lia.
Qed.

(** Doubling a normal number is exact: only the exponent changes. *)
Lemma mul_two_exact s m e :
  Zpos (digits2_pos m) = 53 -> -1074 <= e < 971 ->
  mul (S754_finite s m e) UserCreate.lit_2 = S754_finite s m (e + 1).
Proof.
  intros Hd He. unfold mul, UserCreate.lit_2, SFmul.
  rewrite xorb_false_r, Pos.mul_comm. cbn [Pos.mul].
  unfold binary_round_aux, shr_fexp.
  cbn [Zdigits2 digits2_pos shr_record_of_loc].
  rewrite !Pos2Z.inj_succ, Hd, fexp_eq.
  replace (Z.max _ _ - _) with 52 by lia.
  cbn [shr iter_pos shr_1 orb shr_m loc_of_shr_record round_nearest_even Zdigits2 shr_record_of_loc].
  rewrite Hd, fexp_eq.
  replace (Z.max _ _ - _) with 0 by lia.
  cbn [shr shr_m].
  replace (e + -51 + 52) with (e + 1) by lia.
  replace (e + 1 <=? emax - prec) with true; [reflexivity|].
  symmetry. apply Z.leb_le. change (emax - prec) with 971. lia.
Qed.

Lemma shl_align_val m e ez :
  ez <= e -> Zpos (fst (shl_align m e ez)) = Zpos m * 2 ^ (e - ez).
Proof.
  intros H. unfold shl_align.
  destruct (ez - e) as [|p|p] eqn:E; try lia; cbn [fst].
  - replace (e - ez) with 0 by lia. lia.
  - rewrite iter_xO_val. do 2 f_equal. lia.
Qed.

Lemma F2Z_finite_split s m e ez :
  -1074 <= ez <= e ->
  F2Z (S754_finite s m e) = cond_Zopp s (Zpos m * 2 ^ (e - ez)) * 2 ^ (ez - emin).
Proof.
  intros H. cbn [F2Z].
  replace (e - emin) with ((e - ez) + (ez - emin)) by lia.
  rewrite Z.pow_add_r by (unfold emin; lia).
  destruct s; cbn [cond_Zopp]; lia.
Qed.

(** A difference that fits 53 digits at the smaller exponent is exact. *)
Lemma sub_exact sx mx ex sy my ey :
  let x := S754_finite sx mx ex in
  let y := S754_finite sy my ey in
  valid x = true -> valid y = true ->
  Z.abs (F2Z x - F2Z y) < 2 ^ 53 * 2 ^ (Z.min ex ey - emin) ->
  valid (sub x y) = true /\ is_finite (sub x y) = true /\
  F2Z (sub x y) = F2Z x - F2Z y.
Proof.
  intros x y Hx Hy Hb.
  pose proof (valid_bounds _ _ _ Hx) as (Hex & _).
  pose proof (valid_bounds _ _ _ Hy) as (Hey & _).
  set (ez := Z.min ex ey) in *.
  assert (Hp : 0 < 2 ^ (ez - emin)) by (apply Z.pow_pos_nonneg; unfold emin; lia).
  set (D := cond_Zopp sx (Zpos mx * 2 ^ (ex - ez)) - cond_Zopp sy (Zpos my * 2 ^ (ey - ez))).
  assert (HD : F2Z x - F2Z y = D * 2 ^ (ez - emin)).
  { unfold x, y. rewrite (F2Z_finite_split sx mx ex ez), (F2Z_finite_split sy my ey ez) by lia.
    unfold D. lia. }
  rewrite HD in Hb |- *.
  replace (sub x y) with (binary_normalize prec emax D ez false).
  2:{ unfold sub, x, y, SFsub. cbv zeta. fold ez. rewrite !shl_align_val by lia. reflexivity. }
  apply binary_normalize_exact; [|lia].
  rewrite Z.abs_mul, (Z.abs_eq (2 ^ _)) in Hb by lia.
  apply Z.mul_lt_mono_pos_r in Hb; assumption.
Qed.

Lemma leb_correct x y :
  valid x = true -> valid y = true -> is_finite x = true -> is_finite y = true ->
  leb x y = (F2Z x <=? F2Z y).
Proof.
  intros. unfold leb, SFleb. rewrite SFcompare_correct by assumption.
  unfold Z.leb. destruct (F2Z x ?= F2Z y); reflexivity.
Qed.

Lemma ltb_correct x y :
  valid x = true -> valid y = true -> is_finite x = true -> is_finite y = true ->
  ltb x y = (F2Z x <? F2Z y).
Proof.
  intros. unfold ltb, SFltb. rewrite SFcompare_correct by assumption.
  unfold Z.ltb. destruct (F2Z x ?= F2Z y); reflexivity.
Qed.

Lemma U_eq : U = 2 ^ 1074.
Proof. vm_compute. reflexivity. Qed.

Lemma F2Z_lit_1_0 : F2Z UserCreate.lit_1_0 = U.
Proof. vm_compute. reflexivity. Qed.

Lemma F2Z_lit_5_0 : F2Z UserCreate.lit_5_0 = 5 * U.
Proof. vm_compute. reflexivity. Qed.

(** The range check [1.0 <= value <= 5.0], on values; it fails on NaN and
    on the infinities. *)
Lemma in_range_correct v :
  valid v = true ->
  in_range v = is_finite v && (U <=? F2Z v) && (F2Z v <=? 5 * U).
Proof.
  intros Hv. unfold in_range.
  destruct v as [s | s | | s m e].
  - reflexivity.
  - destruct s; reflexivity.
  - reflexivity.
  - rewrite !leb_correct by (try assumption; reflexivity).
    rewrite F2Z_lit_1_0, F2Z_lit_5_0. reflexivity.
Qed.

(** A number in the range is positive, normal, with exponent -52, -51 or
    -50. *)
Lemma in_range_shape v :
  valid v = true -> in_range v = true ->
  exists m e, v = S754_finite false m e /\ Zpos (digits2_pos m) = 53 /\
              -52 <= e <= -50.
Proof.
  intros Hv Hr. rewrite in_range_correct in Hr by assumption.
  apply andb_prop in Hr as [Hr H5]. apply andb_prop in Hr as [Hf H1].
  apply Z.leb_le in H1, H5. rewrite U_eq in *.
  destruct v as [s | s | | s m e]; try discriminate.
  - cbn in H1. lia.
  - pose proof (F2Z_sign _ _ _ Hv) as Hs.
    destruct s; [lia|]. cbn [F2Z cond_Zopp] in *.
    pose proof (valid_bounds _ _ _ Hv) as (He & Hm & Hn).
    apply valid_finite in Hv as [_ Hd].
    assert (E1 : -53 < e).
    { destruct (Z.le_gt_cases e (-53)) as [Hle|]; [exfalso | assumption].
      assert (2 ^ 53 * 2 ^ (e - emin) <= 2 ^ 1074).
      { rewrite <- Z.pow_add_r by (unfold emin; lia).
        apply Z.pow_le_mono_r; unfold emin; lia. }
      assert (0 < 2 ^ (e - emin)) by (apply Z.pow_pos_nonneg; unfold emin; lia).
      nia. }
    assert (E2 : e < -49).
    { destruct (Z.le_gt_cases (-49) e) as [Hle|]; [exfalso | assumption].
      specialize (Hn ltac:(lia)).
      assert (2 ^ 1077 <= 2 ^ 52 * 2 ^ (e - emin)).
      { rewrite <- Z.pow_add_r by (unfold emin; lia).
        apply Z.pow_le_mono_r; unfold emin; lia. }
      assert (0 < 2 ^ (e - emin)) by (apply Z.pow_pos_nonneg; unfold emin; lia).
      assert (5 * 2 ^ 1074 < 2 ^ 1077) by reflexivity.
      nia. }
    exists m, e. split; [reflexivity|]. split; [|lia].
    destruct Hd as [Hd | [Hd _]]; [exact Hd | lia].
Qed.

(** The rounded quotient is within a half of the quotient. *)
Lemma round_half_even_div_near n d :
  0 < d -> 2 * Z.abs (n - round_half_even_div n d * d) <= d.
Proof.
  intros Hd. unfold round_half_even_div.
  pose proof (Z.div_mod n d ltac:(lia)) as E.
  pose proof (Z.mod_pos_bound n d Hd) as B.
  destruct (Z.compare_spec (2 * (n mod d)) d); [destruct (Z.even (n / d))| |]; nia.
Qed.

Lemma round_half_even_div_scale n d c :
  0 < d -> 0 < c ->
  round_half_even_div (n * c) (d * c) = round_half_even_div n d.
Proof.
  intros Hd Hc. unfold round_half_even_div.
  rewrite Z.div_mul_cancel_r, Z.mul_mod_distr_r by lia.
  replace (2 * (n mod d * c)) with (2 * (n mod d) * c) by lia.
  rewrite <- Zmult_compare_compat_r by lia. reflexivity.
Qed.

Lemma abs_correct x :
  valid (abs x) = valid x /\ is_finite (abs x) = is_finite x /\
  F2Z (abs x) = Z.abs (F2Z x).
Proof.
  destruct x as [s | s | | s m e]; try (repeat split; fail).
  repeat split. cbn [abs SFabs F2Z cond_Zopp].
  assert (0 <= Zpos m * 2 ^ (e - emin)) by (apply Z.mul_nonneg_nonneg; [lia | apply Z.pow_nonneg; lia]).
  destruct s; cbn [cond_Zopp]; lia.
Qed.

Lemma exponent_lower s m e a :
  valid (S754_finite s m e) = true ->
  2 ^ a <= Zpos m * 2 ^ (e - emin) -> 0 <= a -> a - 53 < e - emin.
Proof.
  intros Hv H Ha. pose proof (valid_bounds _ _ _ Hv) as (He & Hm & _).
  assert (Hp : 0 < 2 ^ (e - emin)) by (apply Z.pow_pos_nonneg; unfold emin; lia).
  assert (Hlt : 2 ^ a < 2 ^ (53 + (e - emin))).
  { rewrite Z.pow_add_r by (unfold emin; lia). nia. }
  apply Z.pow_lt_mono_r_iff in Hlt; unfold emin in *; lia.
Qed.

(** Small integers convert exactly. *)
Lemma float_of_int_small k :
  Z.abs k < 2 ^ 53 ->
  float_of_int k = inr (of_Z k) /\ valid (of_Z k) = true /\
  is_finite (of_Z k) = true /\ F2Z (of_Z k) = k * U.
Proof.
  intros Hk.
  destruct (binary_normalize_exact k 0 Hk ltac:(lia)) as (Hv & Hf & Hz).
  fold (of_Z k) in Hv, Hf, Hz.
  change (2 ^ (0 - emin)) with U in Hz.
  unfold float_of_int. destruct (of_Z k); try discriminate; auto.
Qed.

(** The increment check on a number in the range: every operation of
    [abs(scaled_value - round(scaled_value)) > epsilon] is exact, and the
    test of [round(scaled_value) % 1] never fires. *)
Lemma validator_in_range v :
  valid v = true -> in_range v = true ->
  UserCreate.rating_must_be_valid (Some v) =
  if F2Z UserCreate.epsilon <? Z.abs (2 * F2Z v - round_half_even_div (2 * F2Z v) U * U)
  then inl (ValueError UserCreate.increment_message) else inr v.
Proof.
  intros Hv Hr.
  destruct (in_range_shape v Hv Hr) as (m & e & -> & Hd & He).
  rewrite in_range_correct in Hr by assumption.
  apply andb_prop in Hr as [Hr H5]. apply andb_prop in Hr as [_ H1].
  apply Z.leb_le in H1, H5.
  unfold UserCreate.rating_must_be_valid. fold (in_range (S754_finite false m e)).
  rewrite in_range_correct, (proj2 (Z.leb_le _ _) H1), (proj2 (Z.leb_le _ _) H5) by assumption.
  cbn [is_finite andb negb]. cbv zeta.
  rewrite mul_two_exact by (assumption || lia).
  cbn [round cond_Zopp].
  replace (0 <=? e + 1) with false by (symmetry; apply Z.leb_gt; lia).
  (* units *)
  set (d := 2 ^ (- (e + 1))).
  set (c := 2 ^ (e + 1 - emin)).
  assert (Hdpos : 0 < d) by (apply Z.pow_pos_nonneg; lia).
  assert (Hcpos : 0 < c) by (apply Z.pow_pos_nonneg; unfold emin; lia).
  assert (Hdc : d * c = U).
  { unfold d, c. rewrite <- Z.pow_add_r by (unfold emin; lia).
    rewrite U_eq. f_equal. unfold emin. lia. }
  assert (Hc2 : 2 * 2 ^ (e - emin) = c).
  { unfold c. rewrite <- Z.pow_succ_r by (unfold emin; lia). f_equal. lia. }
  assert (Hsc : 2 * F2Z (S754_finite false m e) = Zpos m * c).
  { cbn [F2Z cond_Zopp]. rewrite <- Hc2. lia. }
  rewrite Hsc, <- Hdc, round_half_even_div_scale by assumption.
  set (k := round_half_even_div (Zpos m) d).
  pose proof (round_half_even_div_near (Zpos m) d Hdpos) as Hnear. fold k in Hnear.
  assert (Hk : 2 <= k <= 10) by nia.
  destruct (float_of_int_small k ltac:(lia)) as (-> & Hyv & Hyf & Hyz).
  assert (Hxv : valid (S754_finite false m (e + 1)) = true).
  { apply valid_finite. lia. }
  assert (Hxz : F2Z (S754_finite false m (e + 1)) = Zpos m * c) by reflexivity.
  destruct (of_Z k) as [sy | sy | | sy my ey] eqn:Ey; try discriminate.
  { cbn in Hyz. nia. }
  assert (Hey : -51 <= ey).
  { assert (Hmag : 2 ^ 1075 <= Zpos my * 2 ^ (ey - emin)).
    { pose proof (F2Z_sign _ _ _ Hyv) as Hs. rewrite Hyz in Hs.
      destruct sy; [nia|]. cbn [F2Z cond_Zopp] in Hyz. rewrite Hyz.
      change (2 ^ 1075) with (2 * U). nia. }
    apply (exponent_lower _ _ _ _ Hyv) in Hmag; unfold emin in *; lia. }
  destruct (sub_exact false m (e + 1) sy my ey Hxv Hyv) as (Hdv & Hdf & Hdz).
  { rewrite Hxz, Hyz, <- Hdc.
    replace (Zpos m * c - k * (d * c)) with ((Zpos m - k * d) * c) by lia.
    rewrite Z.abs_mul, (Z.abs_eq c) by lia.
    apply Z.le_lt_trans with (d * c); [nia|].
    rewrite Hdc. apply Z.lt_le_trans with (2 ^ 53 * 2 ^ 1023); [reflexivity|].
    apply Z.mul_le_mono_nonneg_l; [lia|].
    apply Z.pow_le_mono_r; unfold emin; lia. }
  destruct (abs_correct (sub (S754_finite false m (e + 1)) (S754_finite sy my ey)))
    as (Hav & Haf & Haz).
  rewrite ltb_correct by (try reflexivity; congruence).
  rewrite Haz, Hdz, Hxz, Hyz, Z.mod_1_r, <- Hdc. cbn [Z.eqb negb]. rewrite orb_false_r.
  reflexivity.
Qed.

Lemma ltb_mul_cancel x y w : 0 < w -> (x * w <? y * w) = (x <? y).
Proof.
  intros Hw. destruct (Z.ltb_spec x y) as [H | H].
  - apply Z.ltb_lt. apply Z.mul_lt_mono_pos_r; assumption.
  - apply Z.ltb_ge. apply Z.mul_le_mono_nonneg_r; lia.
Qed.

(** [epsilon] is the number nearest to [1e-9], not [1e-9] itself; on the
    multiples of [2^-51], where the differences live, comparing with either
    gives the same answer. *)
Lemma epsilon_threshold y :
  (F2Z UserCreate.epsilon <? Z.abs (y * 2 ^ 1023)) = (U <? 10 ^ 9 * Z.abs (y * 2 ^ 1023)).
Proof.
  rewrite Z.abs_mul. change (Z.abs (2 ^ 1023)) with (2 ^ 31 * 2 ^ 992).
  change (F2Z UserCreate.epsilon) with (4835703278458517 * 2 ^ 992).
  change U with (2 ^ 82 * 2 ^ 992).
  replace (Z.abs y * (2 ^ 31 * 2 ^ 992)) with (Z.abs y * 2 ^ 31 * 2 ^ 992) by lia.
  replace (10 ^ 9 * (Z.abs y * 2 ^ 31 * 2 ^ 992)) with (10 ^ 9 * Z.abs y * 2 ^ 31 * 2 ^ 992) by lia.
  rewrite !ltb_mul_cancel by reflexivity.
  destruct (Z.ltb_spec 4835703278458517 (Z.abs y * 2 ^ 31));
  destruct (Z.ltb_spec (2 ^ 82) (10 ^ 9 * Z.abs y * 2 ^ 31)); try reflexivity; exfalso; lia.
Qed.

(** The rule on rationals with denominator [2^1074], in integers. *)
Lemma off_grid_unit n :
  Qle_bool (off_grid (n # unit_den)) tolerance
  = negb (U <? 10 ^ 9 * Z.abs (2 * n - round_half_even_div (2 * n) U * U)).
Proof.
  unfold off_grid, Qround_half_even, tolerance, Qle_bool, Qminus, Qplus, Qmult, Qopp, Qabs, inject_Z.
  cbn [Qnum Qden]. rewrite !Pos.mul_1_r. fold U.
  rewrite Z.leb_antisym, (Z.mul_comm n 2).
  set (k := round_half_even_div (2 * n) U).
  do 2 f_equal; change (10 ^ 9) with 1000000000; lia.
Qed.

Lemma Qle_bool_unit_l (a n : Z) :
  Qle_bool (inject_Z a) (n # unit_den) = (a * U <=? n).
Proof. unfold Qle_bool, inject_Z. cbn [Qnum Qden]. fold U. rewrite Z.mul_1_r. reflexivity. Qed.

Lemma Qle_bool_unit_r (a n : Z) :
  Qle_bool (n # unit_den) (inject_Z a) = (n <=? a * U).
Proof. unfold Qle_bool, inject_Z. cbn [Qnum Qden]. fold U. rewrite Z.mul_1_r. reflexivity. Qed.

(** The validator computes the rule of the exact value of its argument:
    nothing is lost to rounding. *)
Theorem rating_must_be_valid_spec v :
  valid v = true ->
  UserCreate.rating_must_be_valid (Some v) =
  if is_finite v then
    match rating_rule (F2Q v) with
    | inl e => inl e
    | inr _ => inr v
    end
  else inl (ValueError UserCreate.range_message).
Proof.
  intros Hv. unfold rating_rule, F2Q.
  change 1%Q with (inject_Z 1). change 5%Q with (inject_Z 5).
  rewrite Qle_bool_unit_l, Qle_bool_unit_r, off_grid_unit, Z.mul_1_l.
  destruct (in_range v) eqn:Hr.
  - rewrite validator_in_range by assumption.
    destruct (in_range_shape v Hv Hr) as (m & e & -> & Hd & He).
    rewrite in_range_correct in Hr by assumption. cbn [is_finite andb] in Hr |- *.
    rewrite Hr. cbn [negb].
    replace (2 * F2Z (S754_finite false m e) - round_half_even_div (2 * F2Z (S754_finite false m e)) U * U)
      with ((Zpos m * 2 ^ (e + 52) - round_half_even_div (2 * F2Z (S754_finite false m e)) U * 2 ^ 51) * 2 ^ 1023).
    2:{ cbn [F2Z cond_Zopp]. change U with (2 ^ 51 * 2 ^ 1023).
        replace (e - emin) with ((e + 52) + 1022) by (unfold emin; lia).
        rewrite (Z.pow_add_r 2 (e + 52) 1022) by lia.
        change (2 ^ 1023) with (2 * 2 ^ 1022). lia. }
    rewrite epsilon_threshold.
    destruct (U <? _); reflexivity.
  - unfold UserCreate.rating_must_be_valid. fold (in_range v). rewrite Hr. cbn [negb].
    rewrite in_range_correct in Hr by assumption.
    destruct (is_finite v); [|reflexivity].
    cbn [andb] in Hr. rewrite Hr. reflexivity.
Qed.

(** ** The three outcomes of the validator *)

Lemma Qle_bool_false x y : Qle_bool x y = false <-> ~ (x <= y)%Q.
Proof.
  rewrite <- Qle_bool_iff. destruct (Qle_bool x y); split; congruence.
Qed.

Ltac qle_bools :=
  repeat match goal with
  | H : Qle_bool _ _ = true |- _ => apply Qle_bool_iff in H
  | H : Qle_bool _ _ = false |- _ => apply Qle_bool_false in H
  end.

Lemma accepted_iff v :
  valid v = true ->
  accepted v <->
  is_finite v = true /\ (1 <= F2Q v <= 5)%Q /\ (off_grid (F2Q v) <= tolerance)%Q.
Proof.
  intros Hv. unfold accepted. rewrite rating_must_be_valid_spec by assumption.
  unfold rating_rule.
  destruct (is_finite v); [|split; [discriminate | intros [? _]; discriminate]].
  destruct (Qle_bool 1 (F2Q v)) eqn:H1; destruct (Qle_bool (F2Q v) 5) eqn:H5;
    cbn [andb negb]; qle_bools;
    try (split; [discriminate | intros (_ & [? ?] & _); contradiction]).
  destruct (Qle_bool (off_grid (F2Q v)) tolerance) eqn:Ht; qle_bools.
  - split; auto.
  - split; [discriminate | intros (_ & _ & ?); contradiction].
Qed.

Lemma range_rejected_iff v :
  valid v = true ->
  UserCreate.rating_must_be_valid (Some v) = inl (ValueError UserCreate.range_message) <->
  ~ (is_finite v = true /\ (1 <= F2Q v <= 5)%Q).
Proof.
  intros Hv. rewrite rating_must_be_valid_spec by assumption. unfold rating_rule.
  destruct (is_finite v); [|split; [intros _ [? _]; discriminate | reflexivity]].
  destruct (Qle_bool 1 (F2Q v)) eqn:H1; destruct (Qle_bool (F2Q v) 5) eqn:H5;
    cbn [andb negb]; qle_bools;
    try (split; [intros _ (_ & [? ?]); contradiction | reflexivity]).
  destruct (Qle_bool (off_grid (F2Q v)) tolerance);
    (split; [discriminate | intros H; exfalso; apply H; auto]).
Qed.

Lemma increment_rejected_iff v :
  valid v = true ->
  UserCreate.rating_must_be_valid (Some v) = inl (ValueError UserCreate.increment_message) <->
  is_finite v = true /\ (1 <= F2Q v <= 5)%Q /\ ~ (off_grid (F2Q v) <= tolerance)%Q.
Proof.
  intros Hv. rewrite rating_must_be_valid_spec by assumption. unfold rating_rule.
  destruct (is_finite v); [|split; [discriminate | intros [? _]; discriminate]].
  destruct (Qle_bool 1 (F2Q v)) eqn:H1; destruct (Qle_bool (F2Q v) 5) eqn:H5;
    cbn [andb negb]; qle_bools;
    try (split; [discriminate | intros (_ & [? ?] & _); contradiction]).
  destruct (Qle_bool (off_grid (F2Q v)) tolerance) eqn:Ht; qle_bools.
  - split; [discriminate | intros (_ & _ & ?); contradiction].
  - split; auto.
Qed.

(** The validator has no other outcome on a well-formed number. *)
Lemma validator_outcomes v :
  valid v = true ->
  accepted v \/
  UserCreate.rating_must_be_valid (Some v) = inl (ValueError UserCreate.range_message) \/
  UserCreate.rating_must_be_valid (Some v) = inl (ValueError UserCreate.increment_message).
Proof.
  intros Hv. unfold accepted. rewrite rating_must_be_valid_spec by assumption.
  unfold rating_rule. destruct (is_finite v); [|auto].
  destruct (negb _); [auto|]. destruct (Qle_bool _ _); auto.
Qed.

(** ** Accepted ratings in units of [2^-1074] *)

Lemma U_pos : 0 < U.
Proof. reflexivity. Qed.

Lemma accepted_units v :
  valid v = true -> accepted v ->
  is_finite v = true /\ U <= F2Z v <= 5 * U /\
  10 ^ 9 * Z.abs (2 * F2Z v - round_half_even_div (2 * F2Z v) U * U) <= U.
Proof.
  intros Hv Ha. apply accepted_iff in Ha as (Hf & [H1 H5] & Ht); [|assumption].
  apply Qle_bool_iff in H1, H5, Ht. unfold F2Q in *.
  change 1%Q with (inject_Z 1) in H1. change 5%Q with (inject_Z 5) in H5.
  rewrite Qle_bool_unit_l in H1. rewrite Qle_bool_unit_r in H5.
  rewrite off_grid_unit in Ht.
  apply Z.leb_le in H1, H5. apply negb_true_iff, Z.ltb_ge in Ht.
  repeat split; assumption.
Qed.


(** ** Binary64: rounding to nearest *)

Lemma iter_pos_nat {A} (f : A -> A) p : forall x,
  iter_pos f p x = Nat.iter (Pos.to_nat p) f x.
Proof.
  induction p as [p IH | p IH |]; intros x; cbn [iter_pos].
  - rewrite !IH, Pos2Nat.inj_xI.
    replace (S (2 * Pos.to_nat p)) with (Pos.to_nat p + S (Pos.to_nat p))%nat by lia.
    rewrite Nat.iter_add, Nat.iter_succ_r. reflexivity.
  - rewrite !IH, Pos2Nat.inj_xO.
    replace (2 * Pos.to_nat p)%nat with (Pos.to_nat p + Pos.to_nat p)%nat by lia.
    rewrite Nat.iter_add. reflexivity.
  - reflexivity.
Qed.

(** One step of the shift: the last digit goes to the round bit and the
    round bit joins the sticky bit. *)
Lemma shr_1_spec m r s :
  0 <= m ->
  shr_1 {| shr_m := m; shr_r := r; shr_s := s |}
  = {| shr_m := m / 2; shr_r := Z.odd m; shr_s := r || s |}.
Proof.
  intros Hm. destruct m as [|p|p]; [reflexivity| |lia].
  destruct p as [p|p|]; cbn [shr_1 Z.odd].
  - rewrite Pos2Z.inj_xI.
    replace ((2 * Zpos p + 1) / 2) with (Zpos p); [reflexivity|].
    apply Z.div_unique with (r := 1); lia.
  - rewrite Pos2Z.inj_xO.
    replace ((2 * Zpos p) / 2) with (Zpos p); [reflexivity|].
    apply Z.div_unique with (r := 0); lia.
  - reflexivity.
Qed.

Lemma odd_div_mod a : 0 <= a -> a = 2 * (a / 2) + Z.b2z (Z.odd a).
Proof.
  intros _. rewrite <- Z.div2_div. apply Z.div2_odd.
Qed.

(** [n] steps of the shift from an exact mantissa. *)
Lemma shr_iter m (n : nat) :
  0 <= m ->
  Nat.iter (S n) shr_1 {| shr_m := m; shr_r := false; shr_s := false |}
  = {| shr_m := m / 2 ^ Z.of_nat (S n);
       shr_r := Z.odd (m / 2 ^ Z.of_nat n);
       shr_s := negb (m mod 2 ^ Z.of_nat n =? 0) |}.
Proof.
  intros Hm. induction n as [|n IH].
  - cbn [Nat.iter]. rewrite shr_1_spec by exact Hm.
    change (2 ^ Z.of_nat 1) with 2. change (2 ^ Z.of_nat 0) with 1.
    rewrite Z.div_1_r, Z.mod_1_r. reflexivity.
  - change (Nat.iter (S (S n)) shr_1 ?x) with (shr_1 (Nat.iter (S n) shr_1 x)).
    rewrite IH.
    assert (Hp : 0 < 2 ^ Z.of_nat n) by (apply Z.pow_pos_nonneg; lia).
    assert (HS : 2 ^ Z.of_nat (S n) = 2 ^ Z.of_nat n * 2).
    { rewrite Nat2Z.inj_succ, Z.pow_succ_r by lia. lia. }
    rewrite shr_1_spec by (apply Z.div_pos; lia).
    f_equal.
    + rewrite Z.div_div by lia.
      rewrite (Nat2Z.inj_succ (S n)), Z.pow_succ_r by lia.
      f_equal. lia.
    + rewrite HS, Z.rem_mul_r by lia.
      pose proof (Z.mod_pos_bound m (2 ^ Z.of_nat n) Hp) as Hb.
      pose proof (odd_div_mod (m / 2 ^ Z.of_nat n) ltac:(apply Z.div_pos; lia)) as Ho.
      assert (Hmod : (m / 2 ^ Z.of_nat n) mod 2 = Z.b2z (Z.odd (m / 2 ^ Z.of_nat n))).
      { symmetry. apply Z.mod_unique with (q := m / 2 ^ Z.of_nat n / 2).
        - destruct (Z.odd _); cbn; lia.
        - exact Ho. }
      rewrite Hmod.
      destruct (Z.odd (m / 2 ^ Z.of_nat n)); cbn [Z.b2z orb].
      * symmetry. apply negb_true_iff, Z.eqb_neq. lia.
      * rewrite Z.mul_0_r, Z.add_0_r. reflexivity.
Qed.

(** The mantissa after [S n] steps and the rounding to nearest: it is the
    quotient or its successor, and no further from the exact value than
    half a unit. *)
Lemma round_shr_nearest m (n : nat) :
  0 <= m ->
  let mrs := Nat.iter (S n) shr_1 {| shr_m := m; shr_r := false; shr_s := false |} in
  let q' := round_nearest_even (shr_m mrs) (loc_of_shr_record mrs) in
  (q' = m / 2 ^ Z.of_nat (S n) \/ q' = m / 2 ^ Z.of_nat (S n) + 1) /\
  2 * Z.abs (q' * 2 ^ Z.of_nat (S n) - m) <= 2 ^ Z.of_nat (S n).
Proof.
  intros Hm mrs q'. subst q' mrs. rewrite shr_iter by exact Hm.
  cbn [shr_m].
  assert (Hp : 0 < 2 ^ Z.of_nat n) by (apply Z.pow_pos_nonneg; lia).
  assert (HS : 2 ^ Z.of_nat (S n) = 2 ^ Z.of_nat n * 2).
  { rewrite Nat2Z.inj_succ, Z.pow_succ_r by lia. lia. }
  rewrite HS.
  pose proof (Z.mod_pos_bound m (2 ^ Z.of_nat n) Hp) as Hb.
  pose proof (Z.div_mod m (2 ^ Z.of_nat n) ltac:(lia)) as Hdm.
  pose proof (odd_div_mod (m / 2 ^ Z.of_nat n) ltac:(apply Z.div_pos; lia)) as Ho.
  rewrite <- Z.div_div by lia.
  set (h := 2 ^ Z.of_nat n) in *.
  set (a := m / h) in *. set (b := m mod h) in *.
  set (q := a / 2) in *.
  destruct (Z.odd a); cbn [Z.b2z] in Ho;
    destruct (Z.eqb_spec b 0) as [Hb0 | Hb0];
    cbn [negb loc_of_shr_record round_nearest_even].
  - destruct (Z.even q); split; auto; nia.
  - split; [auto|]. nia.
  - split; [auto|]. nia.
  - split; [auto|]. nia.
Qed.

Lemma digits2_unique m d :
  2 ^ (d - 1) <= Zpos m < 2 ^ d -> Zpos (digits2_pos m) = d.
Proof.
  intros [Hl Hu]. pose proof (digits2_bounds m) as [Hl' Hu'].
  assert (0 < d).
  { destruct (Z_lt_le_dec 0 d); [assumption|].
    destruct (Z.eq_dec d 0) as [-> | Hn]; [cbn in Hu; lia|].
    rewrite Z.pow_neg_r in Hu by lia. lia. }
  assert (H1 : 2 ^ (d - 1) < 2 ^ Zpos (digits2_pos m)) by lia.
  assert (H2 : 2 ^ (Zpos (digits2_pos m) - 1) < 2 ^ d) by lia.
  apply Z.pow_lt_mono_r_iff in H1; [|lia|lia].
  apply Z.pow_lt_mono_r_iff in H2; lia.
Qed.

(** Rounding a mantissa of more than 53 digits, away from the subnormal
    numbers and from overflow, gives a number nearest to the exact value. *)
Lemma round_aux_nearest s P ex :
  let d := Zpos (digits2_pos P) in
  53 < d -> -1074 <= d + ex - 53 < 971 ->
  exists M E q',
    binary_round_aux prec emax s (Zpos P) ex loc_Exact = S754_finite s M E /\
    valid (S754_finite s M E) = true /\
    ex <= E /\
    Zpos M * 2 ^ (E - ex) = q' * 2 ^ (d - 53) /\
    (q' = Zpos P / 2 ^ (d - 53) \/ q' = Zpos P / 2 ^ (d - 53) + 1) /\
    2 * Z.abs (q' * 2 ^ (d - 53) - Zpos P) <= 2 ^ (d - 53).
Proof.
  intros d Hd He.
  pose proof (digits2_bounds P) as HP. fold d in HP.
  unfold binary_round_aux, shr_fexp at 1.
  cbn [Zdigits2 shr_record_of_loc]. fold d.
  rewrite fexp_eq.
  replace (Z.max (d + ex - 53) (-1074) - ex) with (d - 53) by lia.
  destruct (d - 53) as [|p|p] eqn:Ep; try lia.
  cbn [shr]. rewrite iter_pos_nat.
  destruct (Pos.to_nat p) as [|n] eqn:En; [lia|].
  assert (Hn : Z.of_nat (S n) = Zpos p) by (rewrite <- En; apply positive_nat_Z).
  destruct (round_shr_nearest (Zpos P) n ltac:(lia)) as [Hq Hnear].
  cbv zeta in Hq, Hnear.
  set (mrs := Nat.iter (S n) shr_1 _) in *.
  set (q' := round_nearest_even (shr_m mrs) (loc_of_shr_record mrs)) in *.
  rewrite Hn in Hq, Hnear.
  assert (Hpow : 0 < 2 ^ Zpos p) by (apply Z.pow_pos_nonneg; lia).
  assert (Hq52 : 2 ^ 52 <= Zpos P / 2 ^ Zpos p < 2 ^ 53).
  { split.
    - apply Z.div_le_lower_bound; [lia|].
      rewrite <- Z.pow_add_r by lia.
      replace (Zpos p + 52) with (d - 1) by lia. lia.
    - apply Z.div_lt_upper_bound; [lia|].
      rewrite <- Z.pow_add_r by lia.
      replace (Zpos p + 53) with d by lia. lia. }
  assert (Hq' : 2 ^ 52 <= q' <= 2 ^ 53) by lia.
  destruct q' as [|M|M] eqn:EM; try lia.
  destruct (Z.eq_dec (Zpos M) (2 ^ 53)) as [H53 | H53].
  - (* the mantissa reached 2^53: one more shift *)
    injection H53 as ->.
    unfold shr_fexp. cbn [Zdigits2 digits2_pos shr_record_of_loc Pos.succ].
    rewrite fexp_eq.
    replace (Z.max (54 + (ex + Zpos p) - 53) (-1074) - (ex + Zpos p)) with 1 by lia.
    cbn [shr iter_pos shr_1 shr_m orb].
    replace (ex + Zpos p + 1 <=? emax - prec) with true
      by (symmetry; apply Z.leb_le; change (emax - prec) with 971; lia).
    exists 4503599627370496%positive, (ex + Zpos p + 1), (2 ^ 53).
    split; [reflexivity|]. split.
    { apply valid_finite. split; [lia|]. left. reflexivity. }
    split; [lia|]. split.
    { replace (ex + Zpos p + 1 - ex) with (Zpos p + 1) by lia.
      rewrite Z.pow_add_r by lia. change (2 ^ 53) with (2 ^ 52 * 2 ^ 1).
      change (Zpos 4503599627370496) with (2 ^ 52). lia. }
    change (2 ^ 53) with (Zpos 9007199254740992) in *. split; assumption.
  - assert (HdM : Zpos (digits2_pos M) = 53) by (apply digits2_unique; lia).
    unfold shr_fexp. cbn [Zdigits2 shr_record_of_loc]. rewrite HdM, fexp_eq.
    replace (Z.max (53 + (ex + Zpos p) - 53) (-1074) - (ex + Zpos p)) with 0 by lia.
    cbn [shr shr_m].
    replace (ex + Zpos p <=? emax - prec) with true
      by (symmetry; apply Z.leb_le; change (emax - prec) with 971; lia).
    exists M, (ex + Zpos p), (Zpos M).
    split; [reflexivity|]. split.
    { apply valid_finite. split; [lia|]. left. exact HdM. }
    split; [lia|]. split.
    { replace (ex + Zpos p - ex) with (Zpos p) by lia. reflexivity. }
    split; assumption.
Qed.

(** ** The product with ten and its integer part *)

(** For a number in the range, [v * 10] is a multiple of the spacing [G] of
    the numbers around it, eight or sixteen times the spacing around [v],
    and a multiple nearest to the exact product. *)
Lemma mul_ten_nearest m e :
  Zpos (digits2_pos m) = 53 -> -52 <= e <= -50 ->
  exists M E G j,
    mul (S754_finite false m e) User.lit_10 = S754_finite false M E /\
    valid (S754_finite false M E) = true /\
    (G = 8 * 2 ^ (e - emin) \/ G = 16 * 2 ^ (e - emin)) /\
    F2Z (S754_finite false M E) = j * G /\
    2 * Z.abs (F2Z (S754_finite false M E) - 10 * F2Z (S754_finite false m e)) <= G.
Proof.
  intros Hd He.
  pose proof (digits2_bounds m) as Hm. rewrite Hd in Hm.
  change (2 ^ (53 - 1)) with (2 ^ 52) in Hm.
  unfold mul, User.lit_10, SFmul. cbn [xorb].
  set (P := (m * 5629499534213120)%positive).
  assert (HP : Zpos P = Zpos m * (10 * 2 ^ 49)) by (unfold P; rewrite Pos2Z.inj_mul; reflexivity).
  pose proof (digits2_bounds P) as HdP.
  set (d := Zpos (digits2_pos P)) in *.
  assert (Hlow : 2 ^ 104 < Zpos P).
  { rewrite HP. change (2 ^ 104) with (2 ^ 52 * 2 ^ 52).
    change (10 * 2 ^ 49) with 5629499534213120. change (2 ^ 52) with 4503599627370496 in *. nia. }
  assert (Hupp : Zpos P < 2 ^ 106).
  { rewrite HP. change (2 ^ 106) with (2 ^ 53 * 2 ^ 53).
    change (10 * 2 ^ 49) with 5629499534213120. change (2 ^ 53) with 9007199254740992 in *. nia. }
  assert (Hdd : d = 105 \/ d = 106).
  { assert (H1 : 2 ^ 104 < 2 ^ d) by lia.
    assert (H2 : 2 ^ (d - 1) < 2 ^ 106) by lia.
    assert (0 < d) by (unfold d; lia).
    apply Z.pow_lt_mono_r_iff in H1; [|lia|lia].
    apply Z.pow_lt_mono_r_iff in H2; lia. }
  destruct (round_aux_nearest false P (e + -49)) as (M & E & q' & EQ & Hv & HE & Hval & _ & Hnear);
    fold d; [lia|lia|].
  fold d in Hval, Hnear.
  exists M, E, (2 ^ (d - 53) * 2 ^ (e + -49 - emin)), q'.
  split; [exact EQ|]. split; [exact Hv|].
  assert (Hc : 0 < 2 ^ (e + -49 - emin)) by (apply Z.pow_pos_nonneg; unfold emin; lia).
  assert (Hw : 2 ^ (e - emin) = 2 ^ 49 * 2 ^ (e + -49 - emin)).
  { rewrite <- Z.pow_add_r by (unfold emin; lia). f_equal. lia. }
  assert (Hy : Zpos M * 2 ^ (E - emin) = q' * 2 ^ (d - 53) * 2 ^ (e + -49 - emin)).
  { rewrite <- Hval, <- Z.mul_assoc, <- Z.pow_add_r by (unfold emin; lia).
    do 2 f_equal. lia. }
  cbn [F2Z cond_Zopp]. rewrite Hy, Hw.
  split; [|split; [lia|]].
  - destruct Hdd as [-> | ->]; [left | right].
    + change (2 ^ (105 - 53)) with (8 * 2 ^ 49). lia.
    + change (2 ^ (106 - 53)) with (16 * 2 ^ 49). lia.
  - replace (q' * 2 ^ (d - 53) * 2 ^ (e + -49 - emin)
             - 10 * (Zpos m * (2 ^ 49 * 2 ^ (e + -49 - emin))))
      with ((q' * 2 ^ (d - 53) - Zpos P) * 2 ^ (e + -49 - emin)) by (rewrite HP; lia).
    rewrite Z.abs_mul, (Z.abs_eq (2 ^ _)) by lia.
    rewrite Z.mul_assoc. apply Z.mul_le_mono_nonneg_r; [lia | exact Hnear].
Qed.

(** The cast of a positive number within 64 bits drops the fraction. *)
Lemma cast_integer_pos M E :
  valid (S754_finite false M E) = true ->
  F2Z (S754_finite false M E) < 2 ^ 63 * U ->
  User.cast_integer (S754_finite false M E) = F2Z (S754_finite false M E) / U.
Proof.
  intros Hv Hlt. apply valid_bounds in Hv as (He & _ & _).
  cbn [F2Z cond_Zopp] in *. rewrite U_eq in *.
  assert (Hp : 0 < 2 ^ (E - emin)) by (apply Z.pow_pos_nonneg; unfold emin; lia).
  assert (Hq : (if 0 <=? E then Zpos M * 2 ^ E else Zpos M / 2 ^ (- E))
               = Zpos M * 2 ^ (E - emin) / 2 ^ 1074).
  { destruct (Z.leb_spec 0 E) as [H0 | H0].
    - replace (E - emin) with (E + 1074) by (unfold emin; lia).
      rewrite Z.pow_add_r, Z.mul_assoc, Z.div_mul by lia. reflexivity.
    - replace (2 ^ 1074) with (2 ^ (- E) * 2 ^ (E - emin)).
      + rewrite Z.div_mul_cancel_r by lia. reflexivity.
      + rewrite <- Z.pow_add_r by (unfold emin; lia). f_equal. unfold emin. lia. }
  unfold User.cast_integer. cbn [cond_Zopp]. rewrite Hq.
  assert (H0 : 0 <= Zpos M * 2 ^ (E - emin) / 2 ^ 1074) by (apply Z.div_pos; lia).
  assert (H63 : Zpos M * 2 ^ (E - emin) / 2 ^ 1074 < 2 ^ 63).
  { apply Z.div_lt_upper_bound; lia. }
  unfold User.int64_min, User.int64_max. lia.
Qed.

(** ** The checked constraints on accepted ratings *)

(** The range constraint is the range check of the validator. *)
Lemma ck_users_rating_range_in_range v :
  User.ck_users_rating_range (Some v) = in_range v.
Proof. reflexivity. Qed.

(** The arithmetic of the next lemma, in units of the spacing [w] around
    the rating: [m] is the rating, [16 * u3] is one, [j * g] is the product
    with ten and [k] the integer nearest to the double. *)
Lemma grid_units m j u3 k g w :
  0 < w -> g = 8 \/ g = 16 -> 70368744177664 <= u3 -> 2 <= k <= 10 ->
  2 * Z.abs (j * (g * w) - 10 * (m * w)) <= g * w ->
  1000000000 * Z.abs (2 * (m * w) - k * (16 * w * u3)) <= 16 * w * u3 ->
  if k * (16 * w * u3) <=? 2 * (m * w)
  then 5 * k * (16 * w * u3) <= j * (g * w) < 5 * k * (16 * w * u3) + 16 * w * u3
  else (5 * k - 1) * (16 * w * u3) <= j * (g * w)
       < (5 * k - 1) * (16 * w * u3) + 16 * w * u3.
Proof.
  intros Hw Hg Hu Hk Hnear Ht.
  replace (j * (g * w) - 10 * (m * w)) with ((j * g - 10 * m) * w) in Hnear by ring.
  replace (2 * (m * w) - k * (16 * w * u3)) with ((2 * m - k * 16 * u3) * w) in Ht by ring.
  rewrite Z.abs_mul, (Z.abs_eq w), Z.mul_assoc in Hnear, Ht by lia.
  replace (16 * w * u3) with (16 * u3 * w) in * by ring.
  apply Z.mul_le_mono_pos_r in Hnear, Ht; [|exact Hw|exact Hw].
  replace (k * (16 * u3 * w)) with (k * 16 * u3 * w) by ring.
  replace (2 * (m * w)) with (2 * m * w) by ring.
  replace (5 * k * (16 * u3 * w)) with (5 * k * 16 * u3 * w) by ring.
  replace ((5 * k - 1) * (16 * u3 * w)) with ((5 * k - 1) * 16 * u3 * w) by ring.
  replace (j * (g * w)) with (j * g * w) by ring.
  replace (5 * k * 16 * u3 * w + 16 * u3 * w) with ((5 * k * 16 * u3 + 16 * u3) * w) by ring.
  replace ((5 * k - 1) * 16 * u3 * w + 16 * u3 * w)
    with (((5 * k - 1) * 16 * u3 + 16 * u3) * w) by ring.
  assert (Hleb : (k * 16 * u3 * w <=? 2 * m * w) = (k * 16 * u3 <=? 2 * m)).
  { destruct (Z.leb_spec (k * 16 * u3) (2 * m)) as [H | H].
    - apply Z.leb_le. apply Z.mul_le_mono_nonneg_r; lia.
    - apply Z.leb_gt. apply Z.mul_lt_mono_pos_r; lia. }
  rewrite Hleb.
  assert (Hgoal : if k * 16 * u3 <=? 2 * m
                  then 5 * k * 16 * u3 <= j * g < 5 * k * 16 * u3 + 16 * u3
                  else (5 * k - 1) * 16 * u3 <= j * g < (5 * k - 1) * 16 * u3 + 16 * u3).
  { assert (Hc : k = 2 \/ k = 3 \/ k = 4 \/ k = 5 \/ k = 6 \/ k = 7 \/ k = 8 \/ k = 9 \/ k = 10)
      by lia.
    clear Hleb Hk.
    destruct Hg as [-> | ->];
      destruct Hc as [->|[->|[->|[->|[->|[->|[->|[->| ->]]]]]]]];
      match goal with
      | |- context [?a <=? ?b] => destruct (Z.leb_spec a b)
      end; lia. }
  destruct (k * 16 * u3 <=? 2 * m); destruct Hgoal as [Hl Hr]; split.
  - apply Z.mul_le_mono_nonneg_r; lia.
  - apply Z.mul_lt_mono_pos_r; lia.
  - apply Z.mul_le_mono_nonneg_r; lia.
  - apply Z.mul_lt_mono_pos_r; lia.
Qed.

(** The integer part of [v * 10] for an accepted [v], whose double is
    within the tolerance of the integer [k]: it is [5 * k] when [v * 2] is
    [k] or more, and [5 * k - 1] when it is less. *)
Lemma cast_mul_ten_accepted v :
  valid v = true -> accepted v ->
  let k := round_half_even_div (2 * F2Z v) U in
  User.cast_integer (mul v User.lit_10)
  = if k * U <=? 2 * F2Z v then 5 * k else 5 * k - 1.
Proof.
  intros Hv Ha k.
  destruct (accepted_units v Hv Ha) as (Hf & [H1 H5] & Ht). fold k in Ht.
  assert (Hr : in_range v = true).
  { rewrite in_range_correct by assumption. rewrite Hf.
    apply andb_true_intro. split; [apply Z.leb_le | apply Z.leb_le]; assumption. }
  pose proof U_pos as HUp.
  assert (Hk : 2 <= k <= 10).
  { pose proof (round_half_even_div_near (2 * F2Z v) U HUp) as Hk. fold k in Hk.
    change (10 ^ 9) with 1000000000 in Ht.
    assert (k * U <= 11 * U /\ U <= k * U) as [Ha1 Ha2] by lia.
    apply Z.mul_le_mono_pos_r in Ha1; [|exact HUp].
    rewrite <- (Z.mul_1_l U) in Ha2 at 1.
    apply Z.mul_le_mono_pos_r in Ha2; [|exact HUp].
    assert (k <> 1) by (intros ->; lia).
    assert (k <> 11) by (intros ->; lia). lia. }
  destruct (in_range_shape v Hv Hr) as (m & e & -> & Hd & He).
  destruct (mul_ten_nearest m e Hd He) as (M & E & G & j & -> & HvM & HG & Hy & Hnear).
  assert (Hw : 0 < 2 ^ (e - emin)) by (apply Z.pow_pos_nonneg; unfold emin; lia).
  assert (HU : U = 16 * 2 ^ (e - emin) * 2 ^ (- e - 4)).
  { rewrite U_eq. change 16 with (2 ^ 4).
    rewrite <- !Z.pow_add_r by (unfold emin; lia). f_equal. unfold emin. lia. }
  assert (Hu3 : 2 ^ 46 <= 2 ^ (- e - 4)) by (apply Z.pow_le_mono_r; lia).
  change (2 ^ 46) with 70368744177664 in Hu3.
  change (10 ^ 9) with 1000000000 in Ht.
  assert (Hg : exists g, (g = 8 \/ g = 16) /\ G = g * 2 ^ (e - emin)).
  { destruct HG as [-> | ->]; [exists 8 | exists 16]; auto. }
  destruct Hg as (g & Hg & ->).
  rewrite Hy in Hnear.
  change (F2Z (S754_finite false m e)) with (Zpos m * 2 ^ (e - emin)) in *.
  rewrite HU in Ht.
  pose proof (grid_units (Zpos m) j (2 ^ (- e - 4)) k g (2 ^ (e - emin))
                Hw Hg Hu3 Hk Hnear Ht) as Hbounds.
  rewrite <- HU, <- Hy in Hbounds.
  set (y := F2Z (S754_finite false M E)) in *.
  rewrite cast_integer_pos; [|exact HvM|].
  - fold y. destruct (k * U <=? 2 * (Zpos m * 2 ^ (e - emin))).
    + symmetry. apply Z.div_unique with (r := y - 5 * k * U); lia.
    + symmetry. apply Z.div_unique with (r := y - (5 * k - 1) * U); lia.
  - fold y. change (2 ^ 63) with 9223372036854775808.
    assert (y < 51 * U).
    { destruct (k * U <=? 2 * (Zpos m * 2 ^ (e - emin)));
        destruct Hbounds as [_ Hb];
        [ apply Z.lt_le_trans with (1 := Hb) | apply Z.lt_le_trans with (1 := Hb) ].
      - replace (5 * k * U + U) with ((5 * k + 1) * U) by ring.
        apply Z.mul_le_mono_nonneg_r; lia.
      - replace ((5 * k - 1) * U + U) with (5 * k * U) by ring.
        apply Z.mul_le_mono_nonneg_r; lia. }
    lia.
Qed.

(** An accepted rating passes both checked constraints exactly when its
    double is the nearest integer or more. *)
Lemma checked_constraints_accepted v :
  valid v = true -> accepted v ->
  checked_constraints v
  = (round_half_even_div (2 * F2Z v) U * U <=? 2 * F2Z v).
Proof.
  intros Hv Ha.
  destruct (accepted_units v Hv Ha) as (Hf & [H1 H5] & Ht).
  assert (Hr : in_range v = true).
  { rewrite in_range_correct by assumption. rewrite Hf.
    apply andb_true_intro. split; [apply Z.leb_le | apply Z.leb_le]; assumption. }
  unfold checked_constraints. rewrite ck_users_rating_range_in_range, Hr.
  cbn [andb User.ck_users_rating_increment].
  rewrite (cast_mul_ten_accepted v Hv Ha). cbv zeta.
  set (k := round_half_even_div (2 * F2Z v) U) in *.
  pose proof U_pos as HUp.
  assert (Hk : 2 <= k <= 10).
  { change (10 ^ 9) with 1000000000 in Ht.
    assert (k * U <= 11 * U /\ U <= k * U) as [Ha1 Ha2] by lia.
    apply Z.mul_le_mono_pos_r in Ha1; [|exact HUp].
    rewrite <- (Z.mul_1_l U) in Ha2 at 1.
    apply Z.mul_le_mono_pos_r in Ha2; [|exact HUp].
    assert (k <> 1) by (intros ->; lia).
    assert (k <> 11) by (intros ->; lia). lia. }
  destruct (k * U <=? 2 * F2Z v).
  - rewrite Z.mul_comm, Z.rem_mul by lia. reflexivity.
  - apply Z.eqb_neq. rewrite Z.rem_mod_nonneg by lia.
    replace (5 * k - 1) with (4 + (k - 1) * 5) by lia.
    rewrite Z.mod_add by lia. cbn. lia.
Qed.

(** ** The checked constraints on what is bound *)

(** A rating that is not a NaN is bound as it is. *)
Lemma bind_rating_finite v : is_finite v = true -> User.bind_rating v = Some v.
Proof. destruct v; try discriminate; reflexivity. Qed.

Lemma passes_checks_finite user :
  is_finite (UserCreate.rating user) = true ->
  passes_checks user = checked_constraints (UserCreate.rating user).
Proof.
  intros Hf. unfold passes_checks. rewrite (bind_rating_finite _ Hf). reflexivity.
Qed.

(** An accepted rating passes the checked constraints exactly when it is
    not below the multiple of 0.5 it is near. *)
Lemma passes_checks_accepted user :
  valid (UserCreate.rating user) = true -> accepted (UserCreate.rating user) ->
  passes_checks user
  = (round_half_even_div (2 * F2Z (UserCreate.rating user)) U * U
     <=? 2 * F2Z (UserCreate.rating user)).
Proof.
  intros Hv Ha. destruct (accepted_units _ Hv Ha) as (Hf & _).
  rewrite (passes_checks_finite _ Hf). apply checked_constraints_accepted; assumption.
Qed.

(** ** The storage session *)

Lemma find_username_none tbl name :
  ~ username_taken tbl name ->
  find (fun u => User.username u =? name)%string tbl = None.
Proof.
  intros Hn. destruct (find _ tbl) as [u|] eqn:E; [|reflexivity].
  apply find_some in E as [Hin Heq]. apply String.eqb_eq in Heq.
  exfalso. apply Hn. exists u. auto.
Qed.

Lemma find_email_none tbl address :
  ~ email_taken tbl address ->
  find (fun u => User.email u =? address)%string tbl = None.
Proof.
  intros Hn. destruct (find _ tbl) as [u|] eqn:E; [|reflexivity].
  apply find_some in E as [Hin Heq]. apply String.eqb_eq in Heq.
  exfalso. apply Hn. exists u. auto.
Qed.

Lemma find_username_some tbl name :
  username_taken tbl name ->
  exists u, find (fun u => User.username u =? name)%string tbl = Some u.
Proof.
  intros (u & Hin & Heq).
  destruct (find _ tbl) as [w|] eqn:E; [eauto|].
  apply (find_none _ _ E) in Hin. rewrite Heq, String.eqb_refl in Hin. discriminate.
Qed.

Lemma find_email_some tbl address :
  email_taken tbl address ->
  exists u, find (fun u => User.email u =? address)%string tbl = Some u.
Proof.
  intros (u & Hin & Heq).
  destruct (find _ tbl) as [w|] eqn:E; [eauto|].
  apply (find_none _ _ E) in Hin. rewrite Heq, String.eqb_refl in Hin. discriminate.
Qed.

Lemma existsb_username_false tbl name :
  ~ username_taken tbl name ->
  existsb (fun u => User.username u =? name)%string tbl = false.
Proof.
  intros Hn. destruct (existsb _ tbl) eqn:E; [|reflexivity].
  apply existsb_exists in E as (u & Hin & Heq). apply String.eqb_eq in Heq.
  exfalso. apply Hn. exists u. auto.
Qed.

Lemma existsb_email_false tbl address :
  ~ email_taken tbl address ->
  existsb (fun u => User.email u =? address)%string tbl = false.
Proof.
  intros Hn. destruct (existsb _ tbl) eqn:E; [|reflexivity].
  apply existsb_exists in E as (u & Hin & Heq). apply String.eqb_eq in Heq.
  exfalso. apply Hn. exists u. auto.
Qed.

(** Keys are fresh: every stored key is below the next one. *)
Lemma next_id_above tbl u : In u tbl -> User.id u < next_id tbl.
Proof.
  unfold next_id. induction tbl as [|w tbl IH]; intros Hin; [contradiction|].
  cbn [map fold_right]. destruct Hin as [-> | Hin]; [lia|].
  specialize (IH Hin). lia.
Qed.

Lemma find_last {A} (f : A -> bool) l x :
  (forall y, In y l -> f y = false) -> f x = true ->
  find f (l ++ [x]) = Some x.
Proof.
  intros Hl Hx. induction l as [|y l IH]; cbn [app find].
  - rewrite Hx. reflexivity.
  - rewrite (Hl y (or_introl eq_refl)). apply IH. intros z Hz. apply Hl. right. exact Hz.
Qed.

(** A user whose name and address are free and whose rating passes the
    checked constraints is stored as the last row; the session sent two
    look-ups, the insertion and the read-back. *)
Lemma create_user_ok user tbl :
  ~ username_taken tbl (UserCreate.username user) ->
  ~ email_taken tbl (UserCreate.email user) ->
  passes_checks user = true ->
  create_user user tbl
  = (inr (new_row tbl user), tbl ++ [new_row tbl user],
     [SELECT; SELECT; INSERT; SELECT]).
Proof.
  intros Hu He Hc. unfold create_user, bind, query_filter_first.
  rewrite (find_username_none _ _ Hu), (find_email_none _ _ He).
  unfold add_commit, violated_constraint.
  unfold passes_checks in Hc. apply andb_prop in Hc as [Hc1 Hc2].
  cbn [new_row User.username User.email User.rating User.id].
  rewrite Hc1, Hc2, (existsb_username_false _ _ Hu), (existsb_email_false _ _ He).
  cbn [negb]. unfold refresh.
  rewrite find_last.
  - reflexivity.
  - intros y Hy. apply next_id_above in Hy. apply Z.eqb_neq.
    cbn [new_row User.id]. lia.
  - apply Z.eqb_refl.
Qed.

(** A user whose name and address are free and whose rating fails a checked
    constraint is refused by the storage engine: the insertion raises and
    the table stays as it was. *)
Lemma create_user_refused user tbl :
  ~ username_taken tbl (UserCreate.username user) ->
  ~ email_taken tbl (UserCreate.email user) ->
  passes_checks user = false ->
  exists c, create_user user tbl
            = (inl (IntegrityError c), tbl, [SELECT; SELECT; INSERT]).
Proof.
  intros Hu He Hc. unfold create_user, bind, query_filter_first.
  rewrite (find_username_none _ _ Hu), (find_email_none _ _ He).
  unfold add_commit, violated_constraint.
  unfold passes_checks in Hc.
  cbn [new_row User.username User.email User.rating User.id].
  destruct (User.ck_users_rating_range _); cbn [negb andb] in *.
  - rewrite Hc. cbn [negb]. eexists. reflexivity.
  - eexists. reflexivity.
Qed.

Lemma create_user_username_conflict user tbl :
  username_taken tbl (UserCreate.username user) ->
  create_user user tbl
  = (inl (HTTPException 400 "Username already registered"), tbl, [SELECT]).
Proof.
  intros Hu. destruct (find_username_some _ _ Hu) as [u E].
  unfold create_user, bind, query_filter_first. rewrite E. reflexivity.
Qed.

Lemma create_user_email_conflict user tbl :
  ~ username_taken tbl (UserCreate.username user) ->
  email_taken tbl (UserCreate.email user) ->
  create_user user tbl
  = (inl (HTTPException 400 "Email already registered"), tbl, [SELECT; SELECT]).
Proof.
  intros Hu He. destruct (find_email_some _ _ He) as [u E].
  unfold create_user, bind, query_filter_first.
  rewrite (find_username_none _ _ Hu), E. reflexivity.
Qed.

Lemma username_taken_dec tbl name :
  username_taken tbl name \/ ~ username_taken tbl name.
Proof.
  destruct (find (fun u => User.username u =? name)%string tbl) as [u|] eqn:E.
  - left. apply find_some in E as [Hin Heq]. apply String.eqb_eq in Heq. exists u. auto.
  - right. intros (u & Hin & Heq). apply (find_none _ _ E) in Hin.
    rewrite Heq, String.eqb_refl in Hin. discriminate.
Qed.

Lemma email_taken_dec tbl address :
  email_taken tbl address \/ ~ email_taken tbl address.
Proof.
  destruct (find (fun u => User.email u =? address)%string tbl) as [u|] eqn:E.
  - left. apply find_some in E as [Hin Heq]. apply String.eqb_eq in Heq. exists u. auto.
  - right. intros (u & Hin & Heq). apply (find_none _ _ E) in Hin.
    rewrite Heq, String.eqb_refl in Hin. discriminate.
Qed.

Lemma username_taken_in tbl name :
  username_taken tbl name <-> In name (map User.username tbl).
Proof.
  unfold username_taken. rewrite in_map_iff. split; intros (u & H1 & H2); exists u; auto.
Qed.

Lemma email_taken_in tbl address :
  email_taken tbl address <-> In address (map User.email tbl).
Proof.
  unfold email_taken. rewrite in_map_iff. split; intros (u & H1 & H2); exists u; auto.
Qed.

(** The four ends of [create_user]: the name is taken; the address is taken;
    the insertion is refused because a checked constraint fails; the row is
    stored. *)
Lemma create_user_cases user tbl :
  (username_taken tbl (UserCreate.username user) /\
   create_user user tbl
   = (inl (HTTPException 400 "Username already registered"), tbl, [SELECT])) \/
  (~ username_taken tbl (UserCreate.username user) /\
   email_taken tbl (UserCreate.email user) /\
   create_user user tbl
   = (inl (HTTPException 400 "Email already registered"), tbl, [SELECT; SELECT])) \/
  (~ username_taken tbl (UserCreate.username user) /\
   ~ email_taken tbl (UserCreate.email user) /\
   passes_checks user = false /\
   exists c, create_user user tbl
             = (inl (IntegrityError c), tbl, [SELECT; SELECT; INSERT])) \/
  (~ username_taken tbl (UserCreate.username user) /\
   ~ email_taken tbl (UserCreate.email user) /\
   passes_checks user = true /\
   create_user user tbl
   = (inr (new_row tbl user), tbl ++ [new_row tbl user],
      [SELECT; SELECT; INSERT; SELECT])).
Proof.
  destruct (username_taken_dec tbl (UserCreate.username user)) as [Hu | Hu].
  { left. split; [exact Hu | apply create_user_username_conflict; exact Hu]. }
  destruct (email_taken_dec tbl (UserCreate.email user)) as [He | He].
  { right; left. repeat split; try assumption.
    apply create_user_email_conflict; assumption. }
  do 2 right.
  destruct (passes_checks user) eqn:Hc.
  - right. repeat split; try assumption. apply create_user_ok; assumption.
  - left. repeat split; try assumption. apply create_user_refused; assumption.
Qed.

Lemma create_user_table_after user tbl :
  table_after (create_user user tbl) = tbl \/
  (passes_checks user = true /\
   ~ username_taken tbl (UserCreate.username user) /\
   ~ email_taken tbl (UserCreate.email user) /\
   create_user user tbl
   = (inr (new_row tbl user), tbl ++ [new_row tbl user],
      [SELECT; SELECT; INSERT; SELECT])).
Proof.
  destruct (create_user_cases user tbl)
    as [[_ E] | [(_ & _ & E) | [(_ & _ & _ & c & E) | (Hu & He & Hc & E)]]];
    try (left; rewrite E; reflexivity).
  right. auto.
Qed.

(** Users with pairwise different names and addresses, none of them in the
    table, and with ratings that pass the checked constraints are stored
    one after the other, in the order given. *)
Lemma create_users_ok users : forall tbl,
  NoDup (map User.username tbl ++ map UserCreate.username users) ->
  NoDup (map User.email tbl ++ map UserCreate.email users) ->
  Forall (fun u => passes_checks u = true) users ->
  exists rows,
    outcome (create_users users tbl) = inr rows /\
    table_after (create_users users tbl) = tbl ++ rows /\
    map User.username rows = map UserCreate.username users /\
    map User.email rows = map UserCreate.email users /\
    map User.rating rows = map (fun u => User.bind_rating (UserCreate.rating u)) users.
Proof.
  induction users as [|user rest IH]; intros tbl Hn He Hok.
  - exists []. cbn. rewrite app_nil_r. auto.
  - inversion Hok as [|? ? Hc Hrest]; subst.
    cbn [map] in Hn, He.
    assert (Hfree : ~ username_taken tbl (UserCreate.username user)).
    { rewrite username_taken_in. intros Hin. apply NoDup_remove_2 in Hn.
      apply Hn, in_or_app. left. exact Hin. }
    assert (Hfree' : ~ email_taken tbl (UserCreate.email user)).
    { rewrite email_taken_in. intros Hin. apply NoDup_remove_2 in He.
      apply He, in_or_app. left. exact Hin. }
    pose proof (create_user_ok user tbl Hfree Hfree' Hc) as Hcu.
    set (row := new_row tbl user) in *.
    destruct (IH (tbl ++ [row])) as (rows & Ho & Ht & Hun & Hem & Hra).
    { rewrite map_app, <- app_assoc. exact Hn. }
    { rewrite map_app, <- app_assoc. exact He. }
    { exact Hrest. }
    exists (row :: rows).
    destruct (create_users rest (tbl ++ [row])) as [[o t] l] eqn:Er.
    unfold outcome, table_after in *. cbn [fst snd] in Ho, Ht. subst o t.
    assert (E : create_users (user :: rest) tbl
                = (inr (row :: rows), (tbl ++ [row]) ++ rows,
                   [SELECT; SELECT; INSERT; SELECT] ++ l ++ [])).
    { cbn [create_users]. unfold bind. rewrite Hcu, Er. reflexivity. }
    rewrite E. cbn [fst snd map]. rewrite <- app_assoc, Hun, Hem, Hra. auto.
Qed.

(** ** Creating and listing users *)

(** What [create_users] leaves behind when every creation succeeded: the
    new rows, in the order of the requests, after the rows that were
    there. *)
Lemma create_users_inv users : forall tbl rows,
  outcome (create_users users tbl) = inr rows ->
  table_after (create_users users tbl) = tbl ++ rows /\
  map User.username rows = map UserCreate.username users /\
  map User.email rows = map UserCreate.email users.
Proof.
  induction users as [|user rest IH]; intros tbl rows Ho.
  - cbn in Ho. injection Ho as <-. cbn. rewrite app_nil_r. auto.
  - cbn [create_users] in *. unfold bind in *.
    destruct (create_user_cases user tbl)
      as [[_ E] | [(_ & _ & E) | [(_ & _ & _ & c & E) | (_ & _ & _ & E)]]];
      rewrite E in *; try discriminate Ho.
    specialize (IH (tbl ++ [new_row tbl user])).
    destruct (create_users rest (tbl ++ [new_row tbl user])) as [[o t] l].
    unfold outcome, table_after in *. cbn [fst snd] in *.
    destruct o as [e | rows']; [discriminate Ho|].
    cbn [ret fst snd] in *. injection Ho as <-.
    destruct (IH rows' eq_refl) as (Ht & Hu & He).
    rewrite Ht, <- app_assoc. cbn [map new_row User.username User.email].
    rewrite Hu, He. auto.
Qed.

(** C2 (confirmed).  Ten users named [user_0] .. [user_9] are created in
    that order in an empty table.  The ten creations succeed when the
    addresses differ and the ratings pass the checked constraints of the
    table.  Whenever the ten creations have succeeded, the table holds
    their rows in that order and reading with [skip=2] and [limit=3]
    returns the three records [user_2], [user_3], [user_4], in that order:
    the third to fifth rows stored. *)
Theorem C2_pagination (users : list UserCreate.t) :
  map UserCreate.username users = user_names ->
  (NoDup (map UserCreate.email users) ->
   Forall (fun u => passes_checks u = true) users ->
   exists rows, outcome (create_users users []) = inr rows) /\
  (forall rows,
     outcome (create_users users []) = inr rows ->
     table_after (create_users users []) = rows /\
     map User.username rows = user_names /\
     exists page,
       outcome (read_users 2 3 rows) = inr page /\
       page = firstn 3 (skipn 2 rows) /\
       map User.username page = ["user_2"; "user_3"; "user_4"] /\
       map User.email page = firstn 3 (skipn 2 (map UserCreate.email users)) /\
       outcome (get_users 2 3 rows) = Ok_users (map UserResponse.from_orm page)).
Proof.
  intros Hnames. split.
  - intros Hemails Hok.
    destruct (create_users_ok users []) as (rows & Ho & _).
    { cbn [map app]. rewrite Hnames. unfold user_names.
      repeat (constructor; [cbn; intuition discriminate|]). constructor. }
    { exact Hemails. }
    { exact Hok. }
    exists rows. exact Ho.
  - intros rows Ho.
    destruct (create_users_inv users [] rows Ho) as (Ht & Hun & Hem).
    cbn [app] in Ht. split; [exact Ht|]. split; [rewrite Hun; exact Hnames|].
    exists (firstn 3 (skipn 2 rows)).
    repeat split; try reflexivity.
    + rewrite <- firstn_map, <- skipn_map, Hun, Hnames. reflexivity.
    + rewrite <- firstn_map, <- skipn_map, Hem. reflexivity.
Qed.

Lemma C2_pagination_witness :
  (exists rows, outcome (create_users (map sample_user user_names) []) = inr rows) /\
  (forall rows,
     outcome (create_users (map sample_user user_names) []) = inr rows ->
     table_after (create_users (map sample_user user_names) []) = rows /\
     map User.username rows = user_names /\
     exists page,
       outcome (read_users 2 3 rows) = inr page /\
       page = firstn 3 (skipn 2 rows) /\
       map User.username page = ["user_2"; "user_3"; "user_4"] /\
       map User.email page
       = firstn 3 (skipn 2 (map UserCreate.email (map sample_user user_names))) /\
       outcome (get_users 2 3 rows) = Ok_users (map UserResponse.from_orm page)).
Proof.
  destruct (C2_pagination (map sample_user user_names) eq_refl) as [Hcreated Hpage].
  split; [apply Hcreated | exact Hpage].
  - cbn. repeat (constructor; [cbn; intuition discriminate|]). constructor.
  - cbn. repeat (constructor; [vm_compute; reflexivity|]). constructor.
Defined.

(** The ten users of the test suite, rated 3.0, are created. *)
Example test_read_users_pagination :
  exists rows,
    outcome (create_users (map sample_user user_names) []) = inr rows /\
    map User.username (firstn 3 (skipn 2 rows)) = ["user_2"; "user_3"; "user_4"].
Proof. eexists. split; vm_compute; reflexivity. Qed.

(** C3 (confirmed).  Whatever the table holds, a request whose name or
    address is that of a stored user fails with status 400 and the matching
    detail: "Username already registered" when the name is taken, "Email
    already registered" when only the address is.  The table is left as it
    was and no insertion was sent to the storage engine. *)
Theorem C3_uniqueness (user : UserCreate.t) (tbl : table) :
  username_taken tbl (UserCreate.username user) \/
  email_taken tbl (UserCreate.email user) ->
  table_after (create_user user tbl) = tbl /\
  ~ In INSERT (trace (create_user user tbl)) /\
  (username_taken tbl (UserCreate.username user) ->
   outcome (create_user user tbl)
   = inl (HTTPException 400 "Username already registered")) /\
  (~ username_taken tbl (UserCreate.username user) ->
   outcome (create_user user tbl)
   = inl (HTTPException 400 "Email already registered")).
Proof.
  intros Hconflict.
  destruct (username_taken_dec tbl (UserCreate.username user)) as [Hu | Hu].
  - rewrite (create_user_username_conflict _ _ Hu). cbn.
    repeat split; [intuition discriminate | contradiction].
  - destruct Hconflict as [Hu' | He]; [contradiction|].
    rewrite (create_user_email_conflict _ _ Hu He). cbn.
    repeat split; [intuition discriminate | contradiction].
Qed.

Lemma C3_uniqueness_witness :
  table_after (create_user (sample_user "existinguser") [sample_row]) = [sample_row] /\
  ~ In INSERT (trace (create_user (sample_user "existinguser") [sample_row])) /\
  (username_taken [sample_row] "existinguser" ->
   outcome (create_user (sample_user "existinguser") [sample_row])
   = inl (HTTPException 400 "Username already registered")) /\
  (~ username_taken [sample_row] "existinguser" ->
   outcome (create_user (sample_user "existinguser") [sample_row])
   = inl (HTTPException 400 "Email already registered")).
Proof.
  apply (C3_uniqueness (sample_user "existinguser") [sample_row]).
  left. exists sample_row. split; [left; reflexivity | reflexivity].
Defined.

Lemma post_users_validated `{EmailStr} `{LaxFloat} (b : Body.t) (tbl : table)
    (user : UserCreate.t) :
  UserCreate.model_validate b = inr (inr user) ->
  post_users b tbl
  = match outcome (create_user user tbl) with
    | inr db_user => (Ok_user (UserResponse.from_orm db_user),
                      table_after (create_user user tbl), trace (create_user user tbl))
    | inl e => (response_of_exn e,
                table_after (create_user user tbl), trace (create_user user tbl))
    end.
Proof.
  intros Hm. unfold post_users. rewrite Hm.
  destruct (create_user user tbl) as [[r t] l]. reflexivity.
Qed.

(** C4 (confirmed).  A request that leaves the rating out, with an address
    the validation accepts and a name and address that are not taken,
    succeeds; the record is appended to the table with a rating of exactly
    3.0, which is also the rating of the response. *)
Theorem C4_default_rating `{EmailStr} `{LaxFloat} (b : Body.t) (tbl : table)
    (address : string) :
  Body.rating b = Body.Omitted ->
  validate_email (Body.email b) = inr address ->
  ~ username_taken tbl (Body.username b) ->
  ~ email_taken tbl address ->
  exists row,
    post_users b tbl
    = (Ok_user (UserResponse.from_orm row), tbl ++ [row],
       [SELECT; SELECT; INSERT; SELECT]) /\
    User.username row = Body.username b /\
    User.email row = address /\
    User.rating row = Some UserCreate.default_rating /\
    UserResponse.rating (UserResponse.from_orm row) = Some UserCreate.default_rating /\
    (F2Q UserCreate.default_rating == 3)%Q.
Proof.
  intros Hr Hm Hu He.
  set (user := {| UserCreate.username := Body.username b; UserCreate.email := address;
                  UserCreate.full_name := Body.full_name b;
                  UserCreate.rating := UserCreate.default_rating |}).
  assert (Hv : UserCreate.model_validate b = inr (inr user)).
  { unfold UserCreate.model_validate, UserCreate.validate_rating,
      UserCreate.float_type_check. rewrite Hr, Hm. reflexivity. }
  assert (Hc : create_user user tbl
               = (inr (new_row tbl user), tbl ++ [new_row tbl user],
                  [SELECT; SELECT; INSERT; SELECT])).
  { apply create_user_ok; try assumption; vm_compute; reflexivity. }
  exists (new_row tbl user).
  rewrite (post_users_validated b tbl user Hv), Hc. cbn [outcome table_after trace fst snd].
  repeat split.
Qed.

Lemma C4_default_rating_witness :
  exists row,
    post_users (H := permissive_email) (H0 := numbers_only)
      (sample_body "defaultrater" Body.Omitted) []
    = (Ok_user (UserResponse.from_orm row), [] ++ [row],
       [SELECT; SELECT; INSERT; SELECT]) /\
    User.username row = "defaultrater" /\
    User.email row = "defaultrater@example.com" /\
    User.rating row = Some UserCreate.default_rating /\
    UserResponse.rating (UserResponse.from_orm row) = Some UserCreate.default_rating /\
    (F2Q UserCreate.default_rating == 3)%Q.
Proof.
  apply (C4_default_rating (H := permissive_email) (H0 := numbers_only)
           (sample_body "defaultrater" Body.Omitted) [] "defaultrater@example.com").
  - reflexivity.
  - reflexivity.
  - intros (u & Hin & _). exact Hin.
  - intros (u & Hin & _). exact Hin.
Defined.

(** C9 (confirmed).  A request whose rating is an explicit [null] is
    answered 422 without any access to the table; the entry for the rating
    is that of the type check, with the message "Input should be a valid
    number".  No entry of the answer carries the range message or the
    increment message (bare or with the prefix of a validator error) or the
    message of the validator's own test for [None], and the default is not
    used: the request does not succeed. *)
Theorem C9_null_rating `{EmailStr} `{LaxFloat} (b : Body.t) (tbl : table) :
  Body.rating b = Body.Null ->
  exists errors,
    post_users b tbl = (Unprocessable errors, tbl, []) /\
    In {| loc := "rating"; msg := "Input should be a valid number" |} errors /\
    (forall d, In d errors ->
       msg d <> UserCreate.range_message /\
       msg d <> UserCreate.increment_message /\
       msg d <> String.append UserCreate.value_error_prefix UserCreate.range_message /\
       msg d <> String.append UserCreate.value_error_prefix UserCreate.increment_message /\
       msg d <> UserCreate.null_message /\
       msg d <> String.append UserCreate.value_error_prefix UserCreate.null_message) /\
    ~ succeeds (post_users b tbl).
Proof.
  intros Hr. unfold post_users, serialisable, UserCreate.model_validate. rewrite Hr.
  cbn [UserCreate.validate_rating UserCreate.float_type_check].
  destruct (validate_email (Body.email b)) as [reason | e];
    (eexists; split; [reflexivity|]; split; [cbn; auto|]; split;
     [intros d Hd; cbn in Hd;
      repeat (destruct Hd as [<- | Hd]; [cbn; repeat split; discriminate|]);
      contradiction
     | intros [u Hu]; discriminate]).
Qed.

Lemma C9_null_rating_witness :
  exists errors,
    post_users (H := permissive_email) (H0 := numbers_only)
      (sample_body "invalidrater" Body.Null) []
    = (Unprocessable errors, [], []) /\
    In {| loc := "rating"; msg := "Input should be a valid number" |} errors /\
    (forall d, In d errors ->
       msg d <> UserCreate.range_message /\
       msg d <> UserCreate.increment_message /\
       msg d <> String.append UserCreate.value_error_prefix UserCreate.range_message /\
       msg d <> String.append UserCreate.value_error_prefix UserCreate.increment_message /\
       msg d <> UserCreate.null_message /\
       msg d <> String.append UserCreate.value_error_prefix UserCreate.null_message) /\
    ~ succeeds (post_users (H := permissive_email) (H0 := numbers_only)
                  (sample_body "invalidrater" Body.Null) []).
Proof.
  apply (C9_null_rating (H := permissive_email) (H0 := numbers_only)
           (sample_body "invalidrater" Body.Null) []).
  reflexivity.
Defined.

(** ** The nine ratings and the tolerance *)

Lemma near_point n an ad :
  (Qabs ((n # unit_den) * 2 - (an # ad) * 2) <= tolerance)%Q <->
  10 ^ 9 * Z.abs (2 * n * Zpos ad - 2 * an * U) <= U * Zpos ad.
Proof.
  unfold tolerance, Qle, Qminus, Qplus, Qmult, Qopp, Qabs.
  cbn [Qnum Qden]. rewrite !Pos.mul_1_r, Pos2Z.inj_mul. fold U.
  change (10 ^ 9) with 1000000000.
  replace (n * 2 * Z.pos ad + - (an * 2) * U) with (2 * n * Z.pos ad - 2 * an * U) by lia.
  lia.
Qed.

Lemma near_allowed_units n :
  near_allowed (n # unit_den) <->
  exists j, 2 <= j <= 10 /\ 10 ^ 9 * Z.abs (2 * n - j * U) <= U.
Proof.
  unfold near_allowed, allowed_ratings.
  repeat rewrite Exists_cons. rewrite Exists_nil.
  change 1%Q with (1 # 1). change 2%Q with (2 # 1) at 2. change 3%Q with (3 # 1).
  change 4%Q with (4 # 1). change 5%Q with (5 # 1).
  change 2%Q with (2 # 1) at 5.
  rewrite !near_point.
  pose proof U_pos as HU.
  split.
  - intros [H|[H|[H|[H|[H|[H|[H|[H|[H|[]]]]]]]]]];
      [exists 2|exists 3|exists 4|exists 5|exists 6|exists 7|exists 8|exists 9|exists 10];
      (split; [lia|]); lia.
  - intros (j & Hj & H).
    assert (Hc : j = 2 \/ j = 3 \/ j = 4 \/ j = 5 \/ j = 6 \/ j = 7 \/ j = 8 \/ j = 9 \/ j = 10)
      by lia.
    destruct Hc as [->|[->|[->|[->|[->|[->|[->|[->| ->]]]]]]]].
    + left. lia.
    + right; left. lia.
    + do 2 right; left. lia.
    + do 3 right; left. lia.
    + do 4 right; left. lia.
    + do 5 right; left. lia.
    + do 6 right; left. lia.
    + do 7 right; left. lia.
    + do 8 right; left. lia.
Qed.

(** No integer is nearer than the rounded one. *)
Lemma round_half_even_div_nearest n d j :
  0 < d ->
  Z.abs (n - round_half_even_div n d * d) <= Z.abs (n - j * d).
Proof.
  intros Hd. pose proof (round_half_even_div_near n d Hd) as Hk.
  set (k := round_half_even_div n d) in *.
  destruct (Z.lt_trichotomy j k) as [Hlt | [-> | Hgt]]; [|lia|].
  - assert (j * d + d <= k * d) by nia. lia.
  - assert (k * d + d <= j * d) by nia. lia.
Qed.

(** In the range, being one of the nine ratings up to the tolerance is
    being within the tolerance of the nearest integer once doubled. *)
Lemma near_allowed_in_range v :
  (1 <= F2Q v <= 5)%Q ->
  near_allowed (F2Q v) <-> (off_grid (F2Q v) <= tolerance)%Q.
Proof.
  intros [H1 H5]. apply Qle_bool_iff in H1, H5. unfold F2Q in *.
  change 1%Q with (inject_Z 1) in H1. change 5%Q with (inject_Z 5) in H5.
  rewrite Qle_bool_unit_l in H1. rewrite Qle_bool_unit_r in H5.
  apply Z.leb_le in H1, H5.
  rewrite near_allowed_units, <- Qle_bool_iff, off_grid_unit, negb_true_iff, Z.ltb_ge.
  pose proof U_pos as HU. set (n := F2Z v) in *.
  pose proof (round_half_even_div_near (2 * n) U HU) as Hk.
  split.
  - intros (j & Hj & H).
    pose proof (round_half_even_div_nearest (2 * n) U j HU). lia.
  - intros H. exists (round_half_even_div (2 * n) U). split; [nia | exact H].
Qed.
Lemma accepted_units_iff v :
  valid v = true ->
  accepted v <->
  is_finite v = true /\ U <= F2Z v <= 5 * U /\
  10 ^ 9 * Z.abs (2 * F2Z v - round_half_even_div (2 * F2Z v) U * U) <= U.
Proof.
  intros Hv. rewrite accepted_iff by assumption.
  rewrite <- !Qle_bool_iff. unfold F2Q.
  change 1%Q with (inject_Z 1). change 5%Q with (inject_Z 5).
  rewrite Qle_bool_unit_l, Qle_bool_unit_r, off_grid_unit.
  rewrite !Z.leb_le, negb_true_iff, Z.ltb_ge, Z.mul_1_l. reflexivity.
Qed.

(** The rounded quotient is the only integer within less than a half. *)
Lemma round_half_even_div_unique n d j :
  0 < d -> 2 * Z.abs (n - j * d) < d -> round_half_even_div n d = j.
Proof.
  intros Hd Hj. pose proof (round_half_even_div_near n d Hd) as Hk.
  set (k := round_half_even_div n d) in *.
  destruct (Z.lt_trichotomy j k) as [Hlt | [-> | Hgt]]; [|reflexivity|].
  - assert (j * d + d <= k * d) by nia. lia.
  - assert (k * d + d <= j * d) by nia. lia.
Qed.

Lemma above_point n an ad :
  (0 <= (n # unit_den) * 2 - (an # ad) * 2 <= tolerance)%Q <->
  0 <= 2 * n * Zpos ad - 2 * an * U /\
  10 ^ 9 * (2 * n * Zpos ad - 2 * an * U) <= U * Zpos ad.
Proof.
  unfold tolerance, Qle, Qminus, Qplus, Qmult, Qopp.
  cbn [Qnum Qden]. rewrite !Pos.mul_1_r, Pos2Z.inj_mul. fold U.
  change (10 ^ 9) with 1000000000.
  replace (n * 2 * Z.pos ad + - (an * 2) * U) with (2 * n * Z.pos ad - 2 * an * U) by lia.
  lia.
Qed.

Lemma at_or_above_allowed_units n :
  at_or_above_allowed (n # unit_den) <->
  exists j, 2 <= j <= 10 /\ 0 <= 2 * n - j * U /\ 10 ^ 9 * (2 * n - j * U) <= U.
Proof.
  unfold at_or_above_allowed, allowed_ratings.
  repeat rewrite Exists_cons. rewrite Exists_nil.
  change 1%Q with (1 # 1). change 2%Q with (2 # 1) at 2. change 3%Q with (3 # 1).
  change 4%Q with (4 # 1). change 5%Q with (5 # 1).
  change 2%Q with (2 # 1) at 5.
  rewrite !above_point.
  pose proof U_pos as HU.
  split.
  - intros [H|[H|[H|[H|[H|[H|[H|[H|[H|[]]]]]]]]]];
      [exists 2|exists 3|exists 4|exists 5|exists 6|exists 7|exists 8|exists 9|exists 10];
      (split; [lia|]); lia.
  - intros (j & Hj & H).
    assert (Hc : j = 2 \/ j = 3 \/ j = 4 \/ j = 5 \/ j = 6 \/ j = 7 \/ j = 8 \/ j = 9 \/ j = 10)
      by lia.
    destruct Hc as [->|[->|[->|[->|[->|[->|[->|[->| ->]]]]]]]].
    + left. lia.
    + right; left. lia.
    + do 2 right; left. lia.
    + do 3 right; left. lia.
    + do 4 right; left. lia.
    + do 5 right; left. lia.
    + do 6 right; left. lia.
    + do 7 right; left. lia.
    + do 8 right; left. lia.
Qed.

(** A finite number in the range, at one of the nine ratings or above it
    within the tolerance, is accepted and its double is not below the
    nearest integer. *)
Lemma at_or_above_accepted v :
  valid v = true -> is_finite v = true -> (1 <= F2Q v <= 5)%Q ->
  at_or_above_allowed (F2Q v) ->
  accepted v /\ round_half_even_div (2 * F2Z v) U * U <= 2 * F2Z v.
Proof.
  intros Hv Hf [H1 H5] Ha.
  unfold F2Q in Ha. apply at_or_above_allowed_units in Ha as (j & Hj & H0 & Ht).
  pose proof U_pos as HU. change (10 ^ 9) with 1000000000 in Ht.
  assert (Hk : round_half_even_div (2 * F2Z v) U = j)
    by (apply round_half_even_div_unique; lia).
  rewrite Hk. split; [|lia].
  apply accepted_units_iff; [exact Hv|]. rewrite Hk.
  apply Qle_bool_iff in H1, H5. unfold F2Q in *.
  change 1%Q with (inject_Z 1) in H1. change 5%Q with (inject_Z 5) in H5.
  rewrite Qle_bool_unit_l in H1. rewrite Qle_bool_unit_r in H5.
  apply Z.leb_le in H1, H5. change (10 ^ 9) with 1000000000.
  repeat split; try assumption; lia.
Qed.

Lemma model_validate_accepted `{EmailStr} `{LaxFloat} (b : Body.t) r address :
  Body.rating b = Body.Number r -> accepted r ->
  validate_email (Body.email b) = inr address ->
  UserCreate.model_validate b
  = inr (inr {| UserCreate.username := Body.username b; UserCreate.email := address;
                UserCreate.full_name := Body.full_name b; UserCreate.rating := r |}).
Proof.
  intros Hr Ha Hm. unfold UserCreate.model_validate, UserCreate.validate_rating,
    UserCreate.float_type_check.
  rewrite Hr, Ha, Hm. reflexivity.
Qed.

Lemma model_validate_rejected `{EmailStr} `{LaxFloat} (b : Body.t) r :
  Body.rating b = Body.Number r -> valid r = true -> ~ accepted r ->
  exists errors, UserCreate.model_validate b = inr (inl errors).
Proof.
  intros Hr Hv Hn. unfold UserCreate.model_validate, UserCreate.validate_rating,
    UserCreate.float_type_check.
  rewrite Hr.
  destruct (validator_outcomes r Hv) as [Ha | [-> | ->]]; [contradiction| |];
    destruct (validate_email (Body.email b)); eexists; reflexivity.
Qed.

(** C1 (corrected).  For a request with a numeric rating [r], an address the
    validation accepts and a name and address that are not taken: the
    creation succeeds only if [r] lies in the range [1.0, 5.0] and is one
    of 1.0, 1.5, ..., 5.0 up to the tolerance of 1e-9 on [r*2]; it does
    succeed when [r] lies in the range and is one of the nine values or
    above one by no more than the tolerance; every other numeric rating is
    rejected by the validation layer, the table untouched and no statement
    sent to the storage engine, with a 422 answer when it is finite. *)
Theorem C1_create_succeeds `{EmailStr} `{LaxFloat} (b : Body.t) (tbl : table)
    (r : float) (address : string) :
  valid r = true ->
  Body.rating b = Body.Number r ->
  validate_email (Body.email b) = inr address ->
  ~ username_taken tbl (Body.username b) ->
  ~ email_taken tbl address ->
  (succeeds (post_users b tbl) ->
   is_finite r = true /\ (1 <= F2Q r <= 5)%Q /\ near_allowed (F2Q r)) /\
  (is_finite r = true /\ (1 <= F2Q r <= 5)%Q /\ at_or_above_allowed (F2Q r) ->
   succeeds (post_users b tbl)) /\
  (~ (is_finite r = true /\ (1 <= F2Q r <= 5)%Q /\ near_allowed (F2Q r)) ->
   UserCreate.rating_must_be_valid (Some r) <> inr r /\
   ~ succeeds (post_users b tbl) /\
   table_after (post_users b tbl) = tbl /\
   trace (post_users b tbl) = [] /\
   (is_finite r = true ->
    exists errors, post_users b tbl = (Unprocessable errors, tbl, []))).
Proof.
  intros Hv Hr Hm Hu He.
  assert (Hacc : accepted r <->
                 is_finite r = true /\ (1 <= F2Q r <= 5)%Q /\ near_allowed (F2Q r)).
  { rewrite accepted_iff by assumption. split.
    - intros (Hf & Hrange & Ht). repeat split; try apply Hrange; try assumption.
      apply near_allowed_in_range; assumption.
    - intros (Hf & Hrange & Hnear). repeat split; try apply Hrange; try assumption.
      apply near_allowed_in_range; assumption. }
  assert (Hrej : ~ accepted r ->
                 exists errors,
                   post_users b tbl
                   = (if is_finite r then Unprocessable errors else Internal_server_error,
                      tbl, [])).
  { intros Hn. destruct (model_validate_rejected b r Hr Hv Hn) as [errors E].
    exists errors. unfold post_users, serialisable. rewrite E, Hr.
    destruct (is_finite r); reflexivity. }
  split; [|split].
  - rewrite <- Hacc. intros [u Hs].
    destruct (validator_outcomes r Hv) as [Ha | Hno]; [exact Ha|].
    assert (Hn : ~ accepted r).
    { unfold accepted. destruct Hno as [-> | ->]; discriminate. }
    destruct (Hrej Hn) as [errors E]. rewrite E in Hs.
    destruct (is_finite r); discriminate.
  - intros (Hf & Hrange & Habove).
    destruct (at_or_above_accepted r Hv Hf Hrange Habove) as [Ha Hk].
    set (user := {| UserCreate.username := Body.username b; UserCreate.email := address;
                    UserCreate.full_name := Body.full_name b; UserCreate.rating := r |}).
    assert (Hc : passes_checks user = true).
    { rewrite passes_checks_accepted by assumption. apply Z.leb_le. exact Hk. }
    rewrite (post_users_validated b tbl user (model_validate_accepted b r address Hr Ha Hm)),
      (create_user_ok user tbl Hu He Hc).
    eexists. reflexivity.
  - rewrite <- Hacc. intros Hn. destruct (Hrej Hn) as [errors E].
    split; [exact Hn|]. rewrite E. split.
    { intros [u Hs]. destruct (is_finite r); discriminate. }
    split; [reflexivity|]. split; [reflexivity|].
    intros Hf. rewrite Hf. exists errors. reflexivity.
Qed.

Lemma C1_create_succeeds_witness :
  (succeeds (post_users (H := permissive_email) (H0 := numbers_only)
               (sample_body "testuser" (Body.Number lit_4_5)) []) ->
   is_finite lit_4_5 = true /\ (1 <= F2Q lit_4_5 <= 5)%Q /\ near_allowed (F2Q lit_4_5)) /\
  (is_finite lit_4_5 = true /\ (1 <= F2Q lit_4_5 <= 5)%Q /\
   at_or_above_allowed (F2Q lit_4_5) ->
   succeeds (post_users (H := permissive_email) (H0 := numbers_only)
               (sample_body "testuser" (Body.Number lit_4_5)) [])) /\
  (~ (is_finite lit_4_5 = true /\ (1 <= F2Q lit_4_5 <= 5)%Q /\ near_allowed (F2Q lit_4_5)) ->
   UserCreate.rating_must_be_valid (Some lit_4_5) <> inr lit_4_5 /\
   ~ succeeds (post_users (H := permissive_email) (H0 := numbers_only)
                 (sample_body "testuser" (Body.Number lit_4_5)) []) /\
   table_after (post_users (H := permissive_email) (H0 := numbers_only)
                  (sample_body "testuser" (Body.Number lit_4_5)) []) = [] /\
   trace (post_users (H := permissive_email) (H0 := numbers_only)
            (sample_body "testuser" (Body.Number lit_4_5)) []) = [] /\
   (is_finite lit_4_5 = true ->
    exists errors,
      post_users (H := permissive_email) (H0 := numbers_only)
        (sample_body "testuser" (Body.Number lit_4_5)) []
      = (Unprocessable errors, [], []))).
Proof.
  apply (C1_create_succeeds (H := permissive_email) (H0 := numbers_only)
           (sample_body "testuser" (Body.Number lit_4_5)) [] lit_4_5 "testuser@example.com").
  - vm_compute. reflexivity.
  - reflexivity.
  - reflexivity.
  - intros (u & Hin & _). exact Hin.
  - intros (u & Hin & _). exact Hin.
Defined.

(** C1, as first stated, fails just below the range: [1 - 2^-53] is 1.0 up
    to the tolerance (doubled, it is [2^-52] away from 2), yet the request
    is answered 422 with the range message. *)
Lemma C1_counterexample :
  valid below_one = true /\
  near_allowed (F2Q below_one) /\
  post_users (H := permissive_email) (H0 := numbers_only)
    (sample_body "testuser" (Body.Number below_one)) []
  = (Unprocessable
       [{| loc := "rating"; msg := "Value error, Rating must be between 1.0 and 5.0" |}],
     [], []) /\
  ~ succeeds (post_users (H := permissive_email) (H0 := numbers_only)
                (sample_body "testuser" (Body.Number below_one)) []).
Proof.
  split; [vm_compute; reflexivity|]. split.
  - apply Exists_cons_hd. apply Qle_bool_iff. vm_compute. reflexivity.
  - split; [vm_compute; reflexivity|].
    intros [u Hu]. vm_compute in Hu. discriminate.
Qed.

(** C5 (corrected).  For a number in the range [1.0, 5.0] the validator lets
    the value through if and only if [|v*2 - round(v*2)| <= 1e-9], taken
    exactly; when it rejects such a value the message is "Rating must be in
    increments of 0.5 (e.g., 1.0, 1.5, 2.0)". *)
Theorem C5_increment_check (v : float) :
  valid v = true -> is_finite v = true -> (1 <= F2Q v <= 5)%Q ->
  (accepted v <-> (off_grid (F2Q v) <= tolerance)%Q) /\
  (~ accepted v ->
   UserCreate.rating_must_be_valid (Some v)
   = inl (ValueError "Rating must be in increments of 0.5 (e.g., 1.0, 1.5, 2.0)")).
Proof.
  intros Hv Hf Hrange. split.
  - rewrite accepted_iff by assumption. tauto.
  - intros Hn. apply increment_rejected_iff; [assumption|].
    repeat split; try apply Hrange; try assumption.
    intros Ht. apply Hn. apply accepted_iff; [assumption|]. tauto.
Qed.

Lemma C5_increment_check_witness :
  (accepted lit_3_2 <-> (off_grid (F2Q lit_3_2) <= tolerance)%Q) /\
  (~ accepted lit_3_2 ->
   UserCreate.rating_must_be_valid (Some lit_3_2)
   = inl (ValueError "Rating must be in increments of 0.5 (e.g., 1.0, 1.5, 2.0)")).
Proof.
  apply (C5_increment_check lit_3_2).
  - vm_compute. reflexivity.
  - reflexivity.
  - split; apply Qle_bool_iff; vm_compute; reflexivity.
Defined.

(** C5, as first stated, names a message the validator never raises: at 3.2,
    in the range and off the grid, the value is rejected and the message is
    not "rating must be in increments of 0.5". *)
Lemma C5_counterexample :
  valid lit_3_2 = true /\ is_finite lit_3_2 = true /\ (1 <= F2Q lit_3_2 <= 5)%Q /\
  ~ accepted lit_3_2 /\
  UserCreate.rating_must_be_valid (Some lit_3_2)
  <> inl (ValueError "rating must be in increments of 0.5").
Proof.
  split; [vm_compute; reflexivity|]. split; [reflexivity|]. split.
  - split; apply Qle_bool_iff; vm_compute; reflexivity.
  - split; intros H; vm_compute in H; discriminate.
Qed.

(** C6 (corrected).  Every number outside the range [1.0, 5.0] (the
    infinities and NaN with them) is rejected with the message "Rating must
    be between 1.0 and 5.0"; 1.0 and 5.0 themselves pass the range check and
    are let through. *)
Theorem C6_range_check (v : float) :
  valid v = true ->
  ~ (is_finite v = true /\ (1 <= F2Q v <= 5)%Q) ->
  UserCreate.rating_must_be_valid (Some v)
  = inl (ValueError "Rating must be between 1.0 and 5.0") /\
  in_range UserCreate.lit_1_0 = true /\ in_range UserCreate.lit_5_0 = true /\
  accepted UserCreate.lit_1_0 /\ accepted UserCreate.lit_5_0 /\
  (F2Q UserCreate.lit_1_0 == 1)%Q /\ (F2Q UserCreate.lit_5_0 == 5)%Q.
Proof.
  intros Hv Hout. split; [|repeat split; vm_compute; reflexivity].
  apply range_rejected_iff; assumption.
Qed.

Lemma C6_range_check_witness :
  UserCreate.rating_must_be_valid (Some lit_5_5)
  = inl (ValueError "Rating must be between 1.0 and 5.0") /\
  in_range UserCreate.lit_1_0 = true /\ in_range UserCreate.lit_5_0 = true /\
  accepted UserCreate.lit_1_0 /\ accepted UserCreate.lit_5_0 /\
  (F2Q UserCreate.lit_1_0 == 1)%Q /\ (F2Q UserCreate.lit_5_0 == 5)%Q.
Proof.
  apply (C6_range_check lit_5_5).
  - vm_compute. reflexivity.
  - intros (_ & _ & H5). apply Qle_bool_iff in H5. vm_compute in H5. discriminate.
Defined.

(** C6, as first stated, names a message the validator never raises: 0.5 is
    below the range and the message of its rejection is not "rating must be
    between 1.0 and 5.0". *)
Lemma C6_counterexample :
  valid lit_0_5 = true /\ is_finite lit_0_5 = true /\ ~ (1 <= F2Q lit_0_5)%Q /\
  UserCreate.rating_must_be_valid (Some lit_0_5)
  <> inl (ValueError "rating must be between 1.0 and 5.0").
Proof.
  split; [vm_compute; reflexivity|]. split; [reflexivity|]. split.
  - intros H. apply Qle_bool_iff in H. vm_compute in H. discriminate.
  - intros H. vm_compute in H. discriminate.
Qed.

(** The number doubled is an integer: the number is a multiple of 0.5. *)
Lemma not_half_multiple_5_7 : ~ exists n : Z, (F2Q lit_5_7 * 2 == inject_Z n)%Q.
Proof.
  intros [n Hn]. unfold Qeq, F2Q, Qmult, inject_Z in Hn. cbn [Qnum Qden] in Hn.
  rewrite Pos.mul_1_r in Hn. fold U in Hn.
  assert (Hm : (F2Z lit_5_7 * 2 * 1) mod U = 0) by (rewrite Hn; apply Z.mod_mul; discriminate).
  vm_compute in Hm. discriminate.
Qed.

(** C10 (confirmed).  The range is checked first: a number that is outside
    [1.0, 5.0] and is not a multiple of 0.5, such as 5.7, is rejected with
    the range message and not with the increment message. *)
Theorem C10_range_before_increment (v : float) :
  valid v = true ->
  ~ (is_finite v = true /\ (1 <= F2Q v <= 5)%Q) ->
  ~ (is_finite v = true /\ exists n : Z, (F2Q v * 2 == inject_Z n)%Q) ->
  UserCreate.rating_must_be_valid (Some v)
  = inl (ValueError UserCreate.range_message) /\
  UserCreate.rating_must_be_valid (Some v)
  <> inl (ValueError UserCreate.increment_message).
Proof.
  intros Hv Hout _.
  assert (E : UserCreate.rating_must_be_valid (Some v)
              = inl (ValueError UserCreate.range_message))
    by (apply range_rejected_iff; assumption).
  split; [exact E|]. rewrite E. discriminate.
Qed.

Lemma C10_range_before_increment_witness :
  UserCreate.rating_must_be_valid (Some lit_5_7)
  = inl (ValueError UserCreate.range_message) /\
  UserCreate.rating_must_be_valid (Some lit_5_7)
  <> inl (ValueError UserCreate.increment_message).
Proof.
  apply (C10_range_before_increment lit_5_7).
  - vm_compute. reflexivity.
  - intros (_ & _ & H5). apply Qle_bool_iff in H5. vm_compute in H5. discriminate.
  - intros (_ & H). exact (not_half_multiple_5_7 H).
Defined.


(** Well-formed finite numbers with the same value are the same number. *)
Lemma F2Z_inj s1 m1 e1 s2 m2 e2 :
  valid (S754_finite s1 m1 e1) = true -> valid (S754_finite s2 m2 e2) = true ->
  F2Z (S754_finite s1 m1 e1) = F2Z (S754_finite s2 m2 e2) ->
  S754_finite s1 m1 e1 = S754_finite s2 m2 e2.
Proof.
  intros H1 H2 Heq.
  pose proof (SFcompare_finite _ _ _ _ _ _ H1 H2) as Hc.
  rewrite Heq, Z.compare_refl in Hc.
  pose proof (F2Z_sign _ _ _ H1) as S1. pose proof (F2Z_sign _ _ _ H2) as S2.
  rewrite Heq in S1.
  destruct s1, s2; try lia; cbn [SFcompare] in Hc;
    destruct (Z.compare_spec e1 e2) as [-> | |]; try discriminate;
    injection Hc as Hc;
    [apply (f_equal CompOpp) in Hc; rewrite CompOpp_involutive in Hc; cbn in Hc|];
    apply Pos.compare_eq in Hc; subst; reflexivity.
Qed.
(** ** Decimals with one digit and their binary64 numbers *)

Lemma nearest_double_units r x y :
  nearest_double (r # 10) x -> valid y = true -> is_finite y = true ->
  Z.abs (10 * F2Z x - r * U) <= Z.abs (10 * F2Z y - r * U).
Proof.
  intros (_ & _ & H) Hv Hf. specialize (H y Hv Hf).
  unfold F2Q, Qle, Qabs, Qminus, Qplus, Qopp in H. cbn [Qnum Qden] in H.
  rewrite Pos2Z.inj_mul in H. fold U in H.
  replace (F2Z x * 10 + - r * U) with (10 * F2Z x - r * U) in H by lia.
  replace (F2Z y * 10 + - r * U) with (10 * F2Z y - r * U) in H by lia.
  apply Z.mul_le_mono_pos_r in H; [exact H|]. pose proof U_pos. lia.
Qed.

Lemma nearest_double_exact q x :
  valid x = true -> is_finite x = true -> (F2Q x == q)%Q -> nearest_double q x.
Proof.
  intros Hv Hf Hq. repeat split; try assumption.
  intros y _ _. rewrite Hq.
  setoid_replace (q - q)%Q with 0%Q by ring.
  apply Qabs_nonneg.
Qed.
Lemma read_back_close_all :
  forallb read_back_close (map Z.of_nat (seq 10 41)) = true.
Proof. vm_compute. reflexivity. Qed.

Lemma read_back_close_in_range r :
  10 <= r <= 50 -> read_back_close r = true.
Proof.
  intros Hr. pose proof read_back_close_all as H.
  rewrite forallb_forall in H. apply H.
  apply in_map_iff. exists (Z.to_nat r). split; [lia|].
  apply in_seq. lia.
Qed.
Lemma half_step_rule_tenths r :
  half_step_rule (r # 10) <-> 10 <= r <= 50 /\ r mod 5 = 0.
Proof.
  unfold half_step_rule, Qle, Qeq, Qmult, inject_Z. cbn [Qnum Qden].
  rewrite Z.mod_divide by discriminate. split.
  - intros ([H1 H5] & n & Hn). split; [lia|]. exists n. lia.
  - intros (Hr & n & Hn). split; [lia|]. exists n. lia.
Qed.

Lemma read_back_close_facts r :
  read_back_close r = true ->
  valid (User.of_decimal r) = true /\ is_finite (User.of_decimal r) = true /\
  2 * Z.abs (10 * F2Z (User.of_decimal r) - r * U) <= U /\
  (r mod 5 = 0 -> 10 * F2Z (User.of_decimal r) = r * U).
Proof.
  unfold read_back_close. cbv zeta. intros H.
  apply andb_prop in H as [H H4]. apply andb_prop in H as [H H3].
  apply andb_prop in H as [H1 H2]. apply Z.leb_le in H3.
  repeat split; try assumption.
  intros Hm. apply Z.eqb_eq in Hm. rewrite Hm in H4. apply Z.eqb_eq. exact H4.
Qed.

(** The validator lets the number of a one-digit decimal through exactly
    when the decimal is a multiple of 0.5 in the range. *)
Lemma accepted_nearest_double r x :
  nearest_double (r # 10) x ->
  accepted x <-> 10 <= r <= 50 /\ r mod 5 = 0.
Proof.
  intros Hn. pose proof Hn as (Hv & Hf & _).
  pose proof U_pos as HU.
  rewrite accepted_units_iff by assumption.
  set (n := F2Z x) in *. set (k := round_half_even_div (2 * n) U).
  split.
  - intros (_ & [H1 H5] & Ht).
    assert (Hlo : 10 <= r).
    { destruct (Z.le_gt_cases 10 r) as [|Hlt]; [assumption | exfalso].
      pose proof (nearest_double_units r x below_one Hn eq_refl eq_refl) as Hy.
      fold n in Hy.
      assert (Hb1 : F2Z below_one < U) by reflexivity.
      assert (Hb2 : 9 * U <= 10 * F2Z below_one)
        by (apply Z.leb_le; vm_compute; reflexivity).
      assert (r * U <= 9 * U) by nia. lia. }
    assert (Hhi : r <= 50).
    { destruct (Z.le_gt_cases r 50) as [|Hgt]; [assumption | exfalso].
      pose proof (nearest_double_units r x above_five Hn eq_refl eq_refl) as Hy.
      fold n in Hy.
      assert (Hb1 : 5 * U < F2Z above_five) by reflexivity.
      assert (Hb2 : 10 * F2Z above_five <= 51 * U)
        by (apply Z.leb_le; vm_compute; reflexivity).
      assert (51 * U <= r * U) by nia. lia. }
    split; [lia|].
    destruct (Z.eq_dec (r mod 5) 0) as [|Hne]; [assumption | exfalso].
    destruct (read_back_close_facts r (read_back_close_in_range r (conj Hlo Hhi)))
      as (Hyv & Hyf & Hyc & _).
    pose proof (nearest_double_units r x _ Hn Hyv Hyf) as Hy. fold n in Hy.
    clearbody k.
    assert (Hd : r - 5 * k <> 0).
    { intros E. apply Hne. replace r with (k * 5) by lia. apply Z.mod_mul. discriminate. }
    assert (Hbig : U <= Z.abs ((r - 5 * k) * U)) by nia.
    replace ((r - 5 * k) * U) with (r * U - 5 * (k * U)) in Hbig by lia.
    change (10 ^ 9) with 1000000000 in Ht. lia.
  - intros (Hr & Hm).
    destruct (read_back_close_facts r (read_back_close_in_range r Hr))
      as (Hyv & Hyf & _ & Hye).
    pose proof (nearest_double_units r x _ Hn Hyv Hyf) as Hy. fold n in Hy.
    rewrite (Hye Hm), Z.sub_diag in Hy. cbn [Z.abs] in Hy.
    assert (Hj : exists j, r = 5 * j).
    { exists (r / 5). pose proof (Z.div_mod r 5 ltac:(discriminate)). lia. }
    destruct Hj as [j ->].
    assert (E : 2 * n = j * U) by lia.
    assert (2 * U <= j * U <= 10 * U) by nia.
    pose proof (round_half_even_div_nearest (2 * n) U j HU) as Hk. fold k in Hk.
    change (10 ^ 9) with 1000000000.
    repeat split; try assumption; lia.
Qed.


(** Around a normal number that is not a power of two, the next numbers on
    either side are one spacing away. *)
Lemma spacing x m e :
  valid x = true -> is_finite x = true ->
  valid (S754_finite false m e) = true ->
  2 ^ 52 < Zpos m ->
  F2Z x <> F2Z (S754_finite false m e) ->
  2 ^ (e - emin) <= Z.abs (F2Z x - F2Z (S754_finite false m e)).
Proof.
  intros Hx Hfx Hy Hm Hne.
  pose proof (valid_bounds _ _ _ Hy) as (He & Hm53 & _).
  assert (Hw : 0 < 2 ^ (e - emin)) by (apply Z.pow_pos_nonneg; unfold emin; lia).
  cbn [F2Z cond_Zopp] in *.
  assert (Hmw : 2 ^ (e - emin) <= Zpos m * 2 ^ (e - emin)) by nia.
  destruct x as [s | s | | s m' e']; try discriminate.
  - cbn [F2Z]. lia.
  - pose proof (F2Z_sign _ _ _ Hx) as Hs.
    destruct s.
    + lia.
    + cbn [F2Z cond_Zopp] in *.
      pose proof (valid_bounds _ _ _ Hx) as (He' & Hm' & Hn').
      assert (Hw' : 0 < 2 ^ (e' - emin)) by (apply Z.pow_pos_nonneg; unfold emin; lia).
      destruct (Z.lt_trichotomy e' e) as [Hlt | [-> | Hgt]].
      * assert (Hpw : 2 * 2 ^ (e' - emin) <= 2 ^ (e - emin)).
        { rewrite <- Z.pow_succ_r by (unfold emin; lia).
          apply Z.pow_le_mono_r; unfold emin; lia. }
        change (2 ^ 53) with 9007199254740992 in *.
        change (2 ^ 52) with 4503599627370496 in *.
        assert (Zpos m' * 2 ^ (e' - emin) < 9007199254740992 * 2 ^ (e' - emin)) by nia.
        assert (4503599627370496 * 2 ^ (e - emin) <= (Zpos m - 1) * 2 ^ (e - emin)) by nia.
        lia.
      * assert (Zpos m' <> Zpos m) by (intros E; apply Hne; rewrite E; reflexivity).
        nia.
      * assert (Hpw : 2 * 2 ^ (e - emin) <= 2 ^ (e' - emin)).
        { rewrite <- Z.pow_succ_r by (unfold emin; lia).
          apply Z.pow_le_mono_r; unfold emin; lia. }
        specialize (Hn' ltac:(lia)).
        change (2 ^ 53) with 9007199254740992 in *.
        change (2 ^ 52) with 4503599627370496 in *.
        assert (4503599627370496 * 2 ^ (e' - emin) <= Zpos m' * 2 ^ (e' - emin)) by nia.
        assert ((Zpos m + 1) * 2 ^ (e - emin) <= 9007199254740992 * 2 ^ (e - emin)) by nia.
        lia.
Qed.

Lemma strictly_nearest_all :
  forallb strictly_nearest (map Z.of_nat (seq 10 41)) = true.
Proof. vm_compute. reflexivity. Qed.

(** The decimal [r / 10] between 1.0 and 5.0 has one nearest number. *)
Lemma nearest_double_unique r x :
  10 <= r <= 50 -> nearest_double (r # 10) x -> x = User.of_decimal r.
Proof.
  intros Hr Hn. pose proof Hn as (Hv & Hf & _).
  assert (Hs : strictly_nearest r = true).
  { pose proof strictly_nearest_all as H. rewrite forallb_forall in H. apply H.
    apply in_map_iff. exists (Z.to_nat r). split; [lia|]. apply in_seq. lia. }
  unfold strictly_nearest in Hs.
  destruct (User.of_decimal r) as [s | s | | s m e] eqn:Ey; try discriminate.
  destruct s; [discriminate|].
  apply andb_prop in Hs as [Hyv Hs].
  pose proof (nearest_double_units r x _ Hn Hyv eq_refl) as Hd.
  cbn [F2Z cond_Zopp] in Hd.
  pose proof (valid_bounds _ _ _ Hyv) as (He & _ & _).
  assert (Hw : 0 < 2 ^ (e - emin)) by (apply Z.pow_pos_nonneg; unfold emin; lia).
  assert (Heq : F2Z x = F2Z (S754_finite false m e)).
  { destruct (Z.eq_dec (F2Z x) (F2Z (S754_finite false m e))) as [|Hne]; [assumption|].
    exfalso. destruct (r mod 5 =? 0).
    - apply Z.eqb_eq in Hs. cbn [F2Z cond_Zopp] in Hne. lia.
    - apply andb_prop in Hs as [Hm Hs]. apply Z.ltb_lt in Hm, Hs.
      pose proof (spacing x m e Hv Hf Hyv Hm Hne) as Hsp.
      cbn [F2Z cond_Zopp] in Hsp. lia. }
  pose proof (F2Z_sign _ _ _ Hyv) as Hpos. cbn beta iota in Hpos.
  destruct x as [s' | s' | | s' m' e']; try discriminate.
  - cbn [F2Z cond_Zopp] in Heq, Hpos. lia.
  - apply F2Z_inj; assumption.
Qed.

(** On the numbers of the one-digit decimals from 1.0 to 5.0 the storage
    engine's evaluation of the two constraints singles out the multiples
    of 0.5. *)
Lemma checked_constraints_tenths :
  forallb (fun r => Bool.eqb (checked_constraints (User.of_decimal r)) (r mod 5 =? 0))
          (map Z.of_nat (seq 10 41)) = true.
Proof. vm_compute. reflexivity. Qed.

Lemma checked_constraints_nearest_double r x :
  nearest_double (r # 10) x ->
  checked_constraints x = true <-> 10 <= r <= 50 /\ Z.rem r 5 = 0.
Proof.
  intros Hn. pose proof Hn as (Hv & Hf & _).
  pose proof U_pos as HU.
  assert (Hin : 10 <= r <= 50 ->
                checked_constraints x = (r mod 5 =? 0)).
  { intros Hr. rewrite (nearest_double_unique r x Hr Hn).
    pose proof checked_constraints_tenths as H. rewrite forallb_forall in H.
    apply eqb_prop. apply (H r).
    apply in_map_iff. exists (Z.to_nat r). split; [lia|]. apply in_seq. lia. }
  assert (Hrem : 10 <= r <= 50 -> (Z.rem r 5 = 0 <-> (r mod 5 =? 0) = true)).
  { intros Hr. rewrite Z.rem_mod_nonneg by lia. symmetry. apply Z.eqb_eq. }
  split.
  - intros Hc.
    assert (Hrange : in_range x = true).
    { unfold checked_constraints in Hc. apply andb_prop in Hc as [Hc _]. exact Hc. }
    rewrite in_range_correct in Hrange by assumption.
    apply andb_prop in Hrange as [Hrange H5]. apply andb_prop in Hrange as [_ H1].
    apply Z.leb_le in H1, H5.
    set (n := F2Z x) in *.
    assert (Hlo : 10 <= r).
    { destruct (Z.le_gt_cases 10 r) as [|Hlt]; [assumption | exfalso].
      pose proof (nearest_double_units r x below_one Hn eq_refl eq_refl) as Hy.
      fold n in Hy.
      assert (Hb1 : F2Z below_one < U) by reflexivity.
      assert (Hb2 : 9 * U <= 10 * F2Z below_one)
        by (apply Z.leb_le; vm_compute; reflexivity).
      assert (r * U <= 9 * U) by nia. lia. }
    assert (Hhi : r <= 50).
    { destruct (Z.le_gt_cases r 50) as [|Hgt]; [assumption | exfalso].
      pose proof (nearest_double_units r x above_five Hn eq_refl eq_refl) as Hy.
      fold n in Hy.
      assert (Hb1 : 5 * U < F2Z above_five) by reflexivity.
      assert (Hb2 : 10 * F2Z above_five <= 51 * U)
        by (apply Z.leb_le; vm_compute; reflexivity).
      assert (51 * U <= r * U) by nia. lia. }
    split; [lia|]. apply Hrem; [lia|]. rewrite <- Hin by lia. exact Hc.
  - intros [Hr Hm]. rewrite Hin by exact Hr. apply Hrem; assumption.
Qed.

(** C7 (confirmed).  On a decimal with one digit after the point, [r]
    tenths, written as the binary64 number [x] nearest to it: the two
    checked constraints of the table, as the storage engine evaluates them
    on [x], hold exactly when [r] tenths is in [1.0, 5.0] with
    [(r/10 * 10) mod 5 = 0], exactly when the value is in [1.0, 5.0] with
    its double an integer, and exactly when the validator lets [x] through:
    the two layers accept the same one-digit values. *)
Theorem C7_constraints_agree (r : Z) (x : float) :
  nearest_double (r # 10) x ->
  (checked_constraints x = true <-> 10 <= r <= 50 /\ Z.rem r 5 = 0) /\
  (checked_constraints x = true <-> half_step_rule (r # 10)) /\
  (checked_constraints x = true <-> accepted x).
Proof.
  intros Hn.
  rewrite (checked_constraints_nearest_double r x Hn), half_step_rule_tenths,
    (accepted_nearest_double r x Hn).
  assert (Hrem : 10 <= r <= 50 -> (Z.rem r 5 = 0 <-> r mod 5 = 0)).
  { intros Hr. rewrite Z.rem_mod_nonneg by lia. reflexivity. }
  repeat split; try tauto; intros [Hr Hm]; (split; [exact Hr|]); apply Hrem; assumption.
Qed.

Lemma C7_constraints_agree_witness :
  (checked_constraints lit_2_5 = true <-> 10 <= 25 <= 50 /\ Z.rem 25 5 = 0) /\
  (checked_constraints lit_2_5 = true <-> half_step_rule (25 # 10)) /\
  (checked_constraints lit_2_5 = true <-> accepted lit_2_5).
Proof.
  apply (C7_constraints_agree 25 lit_2_5).
  apply nearest_double_exact; reflexivity.
Defined.

(** ** The literals and the cases of the test suite *)

(** [epsilon] is within half a unit in the last place of [1e-9]. *)
Lemma epsilon_nearest :
  (Qabs (F2Q UserCreate.epsilon - tolerance) <= 1 # (2 ^ 83))%Q.
Proof. apply Qle_bool_iff. vm_compute. reflexivity. Qed.

Lemma default_rating_value : (F2Q UserCreate.default_rating == 3)%Q.
Proof. reflexivity. Qed.

Example test_create_user_success :
  outcome (post_users (H := permissive_email) (H0 := numbers_only)
             (sample_body "testuser" (Body.Number lit_4_5)) [])
  = Ok_user {| UserResponse.id := 1; UserResponse.username := "testuser";
               UserResponse.email := "testuser@example.com";
               UserResponse.full_name := None;
               UserResponse.rating := Some lit_4_5 |}.
Proof. vm_compute. reflexivity. Qed.

Example test_create_user_duplicate_username :
  post_users (H := permissive_email) (H0 := numbers_only)
    {| Body.username := "existinguser"; Body.email := "another@example.com";
       Body.full_name := None; Body.rating := Body.Number UserCreate.default_rating |}
    [sample_row]
  = (Error_detail 400 "Username already registered", [sample_row], [SELECT]).
Proof. vm_compute. reflexivity. Qed.

Example test_create_user_duplicate_email :
  post_users (H := permissive_email) (H0 := numbers_only)
    {| Body.username := "anotheremailuser"; Body.email := "existing@example.com";
       Body.full_name := None; Body.rating := Body.Number UserCreate.default_rating |}
    [sample_row]
  = (Error_detail 400 "Email already registered", [sample_row], [SELECT; SELECT]).
Proof. vm_compute. reflexivity. Qed.

Example test_create_user_invalid_rating_low :
  UserCreate.rating_must_be_valid (Some lit_0_5)
  = inl (ValueError "Rating must be between 1.0 and 5.0").
Proof. vm_compute. reflexivity. Qed.

Example test_create_user_invalid_rating_high :
  UserCreate.rating_must_be_valid (Some lit_5_5)
  = inl (ValueError "Rating must be between 1.0 and 5.0").
Proof. vm_compute. reflexivity. Qed.

Example test_create_user_invalid_rating_step :
  UserCreate.rating_must_be_valid (Some lit_3_2)
  = inl (ValueError "Rating must be in increments of 0.5 (e.g., 1.0, 1.5, 2.0)").
Proof. vm_compute. reflexivity. Qed.

Example test_read_users_empty :
  get_users 0 100 [] = (Ok_users [], [], [SELECT]).
Proof. reflexivity. Qed.

(** Just above a grid point the validator lets the value through; the
    tolerance is not applied to the bounds of the range. *)
Example above_one_accepted : accepted above_one.
Proof. vm_compute. reflexivity. Qed.

Example below_one_rejected :
  UserCreate.rating_must_be_valid (Some below_one)
  = inl (ValueError "Rating must be between 1.0 and 5.0").
Proof. vm_compute. reflexivity. Qed.

(** * Further properties of the endpoints *)

(** ** Every way [create_user] can end *)

Lemma next_id_fresh tbl : ~ In (next_id tbl) (map User.id tbl).
Proof.
  intros Hin. apply in_map_iff in Hin as (u & Heq & Hin).
  apply next_id_above in Hin. lia.
Qed.

Lemma NoDup_snoc {A} (l : list A) (a : A) :
  NoDup l -> ~ In a l -> NoDup (l ++ [a]).
Proof.
  intros Hl Ha. apply NoDup_app; [exact Hl | repeat constructor; intros [] |].
  intros x Hx [<- | []]. contradiction.
Qed.

(** [create_user] only ever appends.  When it raises, the table is the one
    it found; when it returns a record, that record is the one new row, it
    carries the name, address and full name of the request, its rating is
    the number of the request as it was bound ([NULL] for a NaN), the
    rating passes both checked constraints, and its key is not the key of
    any row that was there. *)
Theorem create_user_postcondition (user : UserCreate.t) (tbl : table) :
  match outcome (create_user user tbl) with
  | inl _ => table_after (create_user user tbl) = tbl
  | inr row =>
      table_after (create_user user tbl) = tbl ++ [row] /\
      User.username row = UserCreate.username user /\
      User.email row = UserCreate.email user /\
      User.full_name row = UserCreate.full_name user /\
      User.rating row = User.bind_rating (UserCreate.rating user) /\
      User.ck_users_rating_range (User.rating row) = true /\
      User.ck_users_rating_increment (User.rating row) = true /\
      ~ In (User.id row) (map User.id tbl)
  end.
Proof.
  destruct (create_user_cases user tbl)
    as [[_ E] | [(_ & _ & E) | [(_ & _ & _ & c & E) | (Hu & He & Hc & E)]]];
    rewrite E; cbn [outcome table_after fst snd]; try reflexivity.
  cbn [new_row User.username User.email User.full_name User.rating User.id].
  unfold passes_checks in Hc. apply andb_prop in Hc as [Hc1 Hc2].
  repeat split; try assumption. apply next_id_fresh.
Qed.

(** The statements of [create_user] go out in a fixed order: the look-up of
    the name, the look-up of the address, the insertion, the read-back.  The
    insertion is sent exactly when neither the name nor the address is
    taken, never twice, and the table changes only when all four statements
    were sent. *)
Theorem create_user_statements (user : UserCreate.t) (tbl : table) :
  (trace (create_user user tbl) = [SELECT] \/
   trace (create_user user tbl) = [SELECT; SELECT] \/
   trace (create_user user tbl) = [SELECT; SELECT; INSERT] \/
   trace (create_user user tbl) = [SELECT; SELECT; INSERT; SELECT]) /\
  (In INSERT (trace (create_user user tbl)) <->
   ~ username_taken tbl (UserCreate.username user) /\
   ~ email_taken tbl (UserCreate.email user)) /\
  (table_after (create_user user tbl) = tbl \/
   trace (create_user user tbl) = [SELECT; SELECT; INSERT; SELECT]).
Proof.
  destruct (create_user_cases user tbl)
    as [[Hu E] | [(Hu & He & E) | [(Hu & He & _ & c & E) | (Hu & He & Hc & E)]]];
    rewrite E; cbn [trace table_after fst snd].
  - split; [auto|]. split; [|auto]. split.
    + intros [H | []]. discriminate.
    + intros [H _]. contradiction.
  - split; [auto|]. split; [|auto]. split.
    + intros [H | [H | []]]; discriminate.
    + intros [_ H]. contradiction.
  - split; [auto|]. split; [|auto]. split; [auto|]. intros _. cbn. auto.
  - split; [auto 6|]. split; [|auto]. split; [auto|]. intros _. cbn. auto.
Qed.

Lemma table_ok_snoc tbl user :
  table_ok tbl ->
  ~ username_taken tbl (UserCreate.username user) ->
  ~ email_taken tbl (UserCreate.email user) ->
  passes_checks user = true ->
  table_ok (tbl ++ [new_row tbl user]).
Proof.
  intros (Hid & Hun & Hem & Hck) Hu He Hc. unfold table_ok.
  rewrite !map_app. cbn [map new_row User.id User.username User.email].
  repeat split.
  - apply NoDup_snoc; [exact Hid | apply next_id_fresh].
  - apply NoDup_snoc; [exact Hun | rewrite <- username_taken_in; exact Hu].
  - apply NoDup_snoc; [exact Hem | rewrite <- email_taken_in; exact He].
  - apply Forall_app. split; [exact Hck|]. constructor; [|constructor].
    cbn [new_row User.rating]. unfold passes_checks in Hc.
    apply andb_prop in Hc. exact Hc.
Qed.

Lemma table_ok_create_user user tbl :
  table_ok tbl -> table_ok (table_after (create_user user tbl)).
Proof.
  intros Hok.
  destruct (create_user_table_after user tbl) as [-> | (Hc & Hu & He & E)];
    [exact Hok|].
  rewrite E. cbn [table_after fst snd]. apply table_ok_snoc; assumption.
Qed.

(** The table keeps what the schema declares through every call of
    [create_user], whatever the user object, also one whose rating never
    went through the validator: no two rows share a key, a name or an
    address, and every stored rating passes both checked constraints as
    the storage engine evaluates them. *)
Theorem create_user_keeps_table_ok (user : UserCreate.t) (tbl : table) :
  table_ok tbl -> table_ok (table_after (create_user user tbl)).
Proof. apply table_ok_create_user. Qed.

Lemma table_ok_sample : table_ok [sample_row].
Proof.
  unfold table_ok. cbn.
  repeat split; repeat (constructor; [cbn; intuition discriminate|]); constructor; auto.
Qed.

Lemma create_user_keeps_table_ok_witness :
  table_ok (table_after (create_user (sample_user_rated "newcomer" lit_3_2) [sample_row])).
Proof.
  apply (create_user_keeps_table_ok (sample_user_rated "newcomer" lit_3_2) [sample_row]).
  exact table_ok_sample.
Defined.

(** A rating that skipped the validator: 3.2 passed to [create_user]
    directly is refused by the insertion. *)
Example create_user_unvalidated :
  create_user (sample_user_rated "newcomer" lit_3_2) [sample_row]
  = (inl (IntegrityError "ck_users_rating_increment"), [sample_row],
     [SELECT; SELECT; INSERT]).
Proof. vm_compute. reflexivity. Qed.

(** The increment constraint looks at the integer part of [rating * 10]:
    1.06, which the validator rejects, passes it, is stored as it is and
    read back as 1.1. *)
Example create_user_unvalidated_stored :
  UserCreate.rating_must_be_valid (Some lit_1_06)
  = inl (ValueError "Rating must be in increments of 0.5 (e.g., 1.0, 1.5, 2.0)") /\
  exists row,
    create_user (sample_user_rated "newcomer" lit_1_06) []
    = (inr row, [row], [SELECT; SELECT; INSERT; SELECT]) /\
    User.rating row = Some lit_1_06 /\
    UserResponse.rating (UserResponse.from_orm row) = Some (User.of_decimal 11).
Proof.
  split; [vm_compute; reflexivity|].
  eexists. split; [vm_compute; reflexivity|]. split; vm_compute; reflexivity.
Qed.

(** A NaN is bound as [NULL], on which both constraints pass. *)
Example create_user_nan :
  exists row,
    create_user (sample_user_rated "newcomer" S754_nan) []
    = (inr row, [row], [SELECT; SELECT; INSERT; SELECT]) /\
    User.rating row = None.
Proof. eexists. split; vm_compute; reflexivity. Qed.

(** ** Sequences of requests *)

Lemma table_after_bind {A B} (m : Session A) (f : A -> Session B) tbl :
  table_after (bind m f tbl)
  = match outcome (m tbl) with
    | inl _ => table_after (m tbl)
    | inr a => table_after (f a (table_after (m tbl)))
    end.
Proof.
  unfold bind, table_after, outcome. destruct (m tbl) as [[r t] l]. cbn [fst snd].
  destruct r as [e | a]; [reflexivity|].
  destruct (f a t) as [[r2 t2] l2]. reflexivity.
Qed.

Lemma post_users_table_after `{EmailStr} `{LaxFloat} (b : Body.t) (tbl : table) :
  table_after (post_users b tbl) = tbl \/
  exists user, table_after (post_users b tbl) = table_after (create_user user tbl).
Proof.
  unfold post_users.
  destruct (UserCreate.model_validate b) as [e | [errors | user]]; [left; reflexivity | |].
  - left. destruct (serialisable b); reflexivity.
  - right. exists user. destruct (create_user user tbl) as [[r t] l].
    destruct r; reflexivity.
Qed.

Lemma serve_keeps_table_ok `{EmailStr} `{LaxFloat} (bodies : list Body.t) : forall tbl,
  table_ok tbl -> table_ok (serve bodies tbl).
Proof.
  induction bodies as [|b bodies IH]; intros tbl Hok; [exact Hok|].
  cbn [serve fold_left]. apply IH.
  destruct (post_users_table_after b tbl) as [E | [user E]]; rewrite E; [exact Hok|].
  apply table_ok_create_user. exact Hok.
Qed.

Lemma create_users_table_after others : forall tbl,
  exists suffix, table_after (create_users others tbl) = tbl ++ suffix.
Proof.
  induction others as [|user rest IH]; intros tbl.
  - exists []. cbn. rewrite app_nil_r. reflexivity.
  - cbn [create_users]. rewrite table_after_bind.
    assert (Hstep : exists s, table_after (create_user user tbl) = tbl ++ s).
    { destruct (create_user_table_after user tbl) as [-> | (_ & _ & _ & E)].
      - exists []. rewrite app_nil_r. reflexivity.
      - rewrite E. eexists. reflexivity. }
    destruct Hstep as [s Hs].
    destruct (outcome (create_user user tbl)) as [e | a]; [exists s; exact Hs|].
    rewrite table_after_bind.
    destruct (IH (table_after (create_user user tbl))) as [s2 Hs2].
    destruct (outcome (create_users rest (table_after (create_user user tbl)))) as [e | a2].
    + exists (s ++ s2). rewrite Hs2, Hs, app_assoc. reflexivity.
    + cbn [ret table_after fst snd]. exists (s ++ s2).
      rewrite Hs2, Hs, app_assoc. reflexivity.
Qed.

(** A name or an address stays taken.  Once [create_user] has stored a
    user, and whatever users are created afterwards, a request with the
    same name is refused with "Username already registered", and a request
    with the same address under a name that is free is refused with "Email
    already registered"; neither changes the table. *)
Theorem stored_names_stay_taken (user : UserCreate.t) (others : list UserCreate.t)
    (user2 : UserCreate.t) (tbl : table) (row : User.t) :
  outcome (create_user user tbl) = inr row ->
  let later := table_after (create_users others (table_after (create_user user tbl))) in
  (UserCreate.username user2 = UserCreate.username user ->
   create_user user2 later
   = (inl (HTTPException 400 "Username already registered"), later, [SELECT])) /\
  (UserCreate.email user2 = UserCreate.email user ->
   ~ username_taken later (UserCreate.username user2) ->
   create_user user2 later
   = (inl (HTTPException 400 "Email already registered"), later, [SELECT; SELECT])).
Proof.
  intros Hrow later.
  assert (Hin : In row later /\ User.username row = UserCreate.username user /\
                User.email row = UserCreate.email user).
  { destruct (create_users_table_after others (table_after (create_user user tbl)))
      as [s Hs]. fold later in Hs.
    destruct (create_user_cases user tbl)
      as [[_ E] | [(_ & _ & E) | [(_ & _ & _ & c & E) | (_ & _ & _ & E)]]];
      rewrite E in Hrow, Hs; cbn [outcome table_after fst snd] in Hrow, Hs;
      try discriminate.
    injection Hrow as <-. rewrite Hs. split; [|split; reflexivity].
    apply in_or_app. left. apply in_or_app. right. left. reflexivity. }
  destruct Hin as (Hin & Hname & Haddr). split.
  - intros Heq. apply create_user_username_conflict.
    exists row. rewrite Heq. auto.
  - intros Heq Hfree. apply create_user_email_conflict; [exact Hfree|].
    exists row. rewrite Heq. auto.
Qed.

Lemma stored_names_stay_taken_witness :
  let later :=
    table_after (create_users [sample_user "second"]
                   (table_after (create_user (sample_user "first") []))) in
  (UserCreate.username (sample_user_rated "first" lit_4_5)
   = UserCreate.username (sample_user "first") ->
   create_user (sample_user_rated "first" lit_4_5) later
   = (inl (HTTPException 400 "Username already registered"), later, [SELECT])) /\
  (UserCreate.email (sample_user_rated "first" lit_4_5)
   = UserCreate.email (sample_user "first") ->
   ~ username_taken later (UserCreate.username (sample_user_rated "first" lit_4_5)) ->
   create_user (sample_user_rated "first" lit_4_5) later
   = (inl (HTTPException 400 "Email already registered"), later, [SELECT; SELECT])).
Proof.
  apply (stored_names_stay_taken (sample_user "first") [sample_user "second"]
           (sample_user_rated "first" lit_4_5) []
           (new_row [] (sample_user "first"))).
  vm_compute. reflexivity.
Defined.

(** ** What a request can be answered *)

Lemma default_rating_accepted :
  valid UserCreate.default_rating = true /\ accepted UserCreate.default_rating.
Proof. split; vm_compute; reflexivity. Qed.

(** A number that passes the type check is well-formed when the number of
    the body is. *)
Lemma float_type_check_valid `{LaxFloat} (r : Body.rating_member) v :
  (forall w, r = Body.Number w -> valid w = true) ->
  UserCreate.float_type_check r = inr (Some v) -> valid v = true.
Proof.
  intros Hvalid Hc. destruct r as [| | w | j]; cbn in Hc; try discriminate.
  - injection Hc as <-. apply Hvalid. reflexivity.
  - destruct (lax_float j) as [m | w] eqn:Ej; [discriminate|].
    injection Hc as <-. exact (lax_float_valid j w Ej).
Qed.

(** The two ends of the validation of a body whose rating, if a number, is
    well-formed: a user object whose rating the validator accepts (the
    default included), or a list of errors that is not empty. *)
Lemma model_validate_cases `{EmailStr} `{LaxFloat} (b : Body.t) :
  (forall v, Body.rating b = Body.Number v -> valid v = true) ->
  (exists user,
     UserCreate.model_validate b = inr (inr user) /\
     UserCreate.username user = Body.username b /\
     validate_email (Body.email b) = inr (UserCreate.email user) /\
     UserCreate.full_name user = Body.full_name b /\
     valid (UserCreate.rating user) = true /\ accepted (UserCreate.rating user) /\
     (UserCreate.float_type_check (Body.rating b) = inr None /\
      UserCreate.rating user = UserCreate.default_rating \/
      UserCreate.float_type_check (Body.rating b) = inr (Some (UserCreate.rating user)))) \/
  (exists errors,
     UserCreate.model_validate b = inr (inl errors) /\ errors <> []).
Proof.
  intros Hvalid. unfold UserCreate.model_validate, UserCreate.validate_rating.
  destruct default_rating_accepted as [Hdv Hda].
  destruct (UserCreate.float_type_check (Body.rating b)) as [d | [v|]] eqn:Hc.
  - right. destruct (validate_email (Body.email b)) as [reason | e];
      (eexists; split; [reflexivity | discriminate]).
  - pose proof (float_type_check_valid _ v Hvalid Hc) as Hv.
    destruct (validator_outcomes v Hv) as [Ha | Hrej].
    + rewrite Ha. destruct (validate_email (Body.email b)) as [reason | e].
      * right. eexists. split; [reflexivity | discriminate].
      * left. eexists. repeat split; cbn; try assumption. right. reflexivity.
    + right. destruct Hrej as [-> | ->];
        destruct (validate_email (Body.email b)) as [reason | e];
        (eexists; split; [reflexivity | discriminate]).
  - destruct (validate_email (Body.email b)) as [reason | e].
    + right. eexists. split; [reflexivity | discriminate].
    + left. eexists. repeat split; cbn; try assumption. left. auto.
Qed.

Lemma below_point n an ad :
  (- tolerance <= (n # unit_den) * 2 - (an # ad) * 2 < 0)%Q <->
  - (U * Zpos ad) <= 10 ^ 9 * (2 * n * Zpos ad - 2 * an * U) /\
  2 * n * Zpos ad - 2 * an * U < 0.
Proof.
  unfold tolerance, Qle, Qlt, Qminus, Qplus, Qmult, Qopp.
  cbn [Qnum Qden]. rewrite !Pos.mul_1_r, Pos2Z.inj_mul. fold U.
  change (10 ^ 9) with 1000000000.
  replace (n * 2 * Z.pos ad + - (an * 2) * U) with (2 * n * Z.pos ad - 2 * an * U) by lia.
  lia.
Qed.

Lemma just_below_allowed_units n :
  just_below_allowed (n # unit_den) <->
  exists j, 2 <= j <= 10 /\ - U <= 10 ^ 9 * (2 * n - j * U) /\ 2 * n - j * U < 0.
Proof.
  unfold just_below_allowed, allowed_ratings.
  repeat rewrite Exists_cons. rewrite Exists_nil.
  change 1%Q with (1 # 1). change 2%Q with (2 # 1) at 2. change 3%Q with (3 # 1).
  change 4%Q with (4 # 1). change 5%Q with (5 # 1).
  change 2%Q with (2 # 1) at 5.
  rewrite !below_point.
  pose proof U_pos as HU.
  split.
  - intros [H|[H|[H|[H|[H|[H|[H|[H|[H|[]]]]]]]]]];
      [exists 2|exists 3|exists 4|exists 5|exists 6|exists 7|exists 8|exists 9|exists 10];
      (split; [lia|]); lia.
  - intros (j & Hj & H).
    assert (Hc : j = 2 \/ j = 3 \/ j = 4 \/ j = 5 \/ j = 6 \/ j = 7 \/ j = 8 \/ j = 9 \/ j = 10)
      by lia.
    destruct Hc as [->|[->|[->|[->|[->|[->|[->|[->| ->]]]]]]]].
    + left. lia.
    + right; left. lia.
    + do 2 right; left. lia.
    + do 3 right; left. lia.
    + do 4 right; left. lia.
    + do 5 right; left. lia.
    + do 6 right; left. lia.
    + do 7 right; left. lia.
    + do 8 right; left. lia.
Qed.

(** The nearest integer to the double of an accepted rating is between 2
    and 10. *)
Lemma accepted_nearest_integer v :
  valid v = true -> accepted v ->
  2 <= round_half_even_div (2 * F2Z v) U <= 10.
Proof.
  intros Hv Ha. destruct (accepted_units v Hv Ha) as (Hf & [H1 H5] & Ht).
  pose proof U_pos as HUp. set (k := round_half_even_div (2 * F2Z v) U) in *.
  change (10 ^ 9) with 1000000000 in Ht.
  assert (k * U <= 11 * U /\ U <= k * U) as [Ha1 Ha2] by lia.
  apply Z.mul_le_mono_pos_r in Ha1; [|exact HUp].
  rewrite <- (Z.mul_1_l U) in Ha2 at 1.
  apply Z.mul_le_mono_pos_r in Ha2; [|exact HUp].
  assert (k <> 1) by (intros E; rewrite E in *; lia).
  assert (k <> 11) by (intros E; rewrite E in *; lia). lia.
Qed.

(** On the ratings the validator accepts, the checked constraints pass at
    the nine ratings and just above them, and fail just below them. *)
Lemma checked_constraints_accepted_iff v :
  valid v = true -> accepted v ->
  (checked_constraints v = true <-> at_or_above_allowed (F2Q v)) /\
  (checked_constraints v = false <-> just_below_allowed (F2Q v)).
Proof.
  intros Hv Ha. rewrite (checked_constraints_accepted v Hv Ha).
  destruct (accepted_units v Hv Ha) as (Hf & [H1 H5] & Ht).
  pose proof (accepted_nearest_integer v Hv Ha) as Hk.
  pose proof U_pos as HU. unfold F2Q.
  rewrite at_or_above_allowed_units, just_below_allowed_units.
  set (n := F2Z v) in *. set (k := round_half_even_div (2 * n) U) in *.
  change (10 ^ 9) with 1000000000 in *.
  assert (Huniq : forall j, 1000000000 * Z.abs (2 * n - j * U) <= U -> j = k).
  { intros j Hj. symmetry. apply round_half_even_div_unique; lia. }
  split; split.
  - intros H. apply Z.leb_le in H. exists k. lia.
  - intros (j & Hj & H0 & H). rewrite <- (Huniq j) by lia. apply Z.leb_le. lia.
  - intros H. apply Z.leb_gt in H. exists k. lia.
  - intros (j & Hj & H0 & H). rewrite <- (Huniq j) by lia. apply Z.leb_gt. lia.
Qed.

(** Every way [POST /users/] can end for a body whose rating, if a number,
    is well-formed. *)
Lemma post_users_cases `{EmailStr} `{LaxFloat} (b : Body.t) (tbl : table) :
  (forall v, Body.rating b = Body.Number v -> valid v = true) ->
  (exists errors,
     UserCreate.model_validate b = inr (inl errors) /\ errors <> [] /\
     post_users b tbl
     = (if serialisable b then Unprocessable errors else Internal_server_error, tbl, [])) \/
  (exists user,
     UserCreate.model_validate b = inr (inr user) /\
     valid (UserCreate.rating user) = true /\ accepted (UserCreate.rating user) /\
     ((username_taken tbl (UserCreate.username user) /\
       post_users b tbl
       = (Error_detail 400 "Username already registered", tbl, [SELECT])) \/
      (~ username_taken tbl (UserCreate.username user) /\
       email_taken tbl (UserCreate.email user) /\
       post_users b tbl
       = (Error_detail 400 "Email already registered", tbl, [SELECT; SELECT])) \/
      (~ username_taken tbl (UserCreate.username user) /\
       ~ email_taken tbl (UserCreate.email user) /\
       passes_checks user = false /\
       post_users b tbl = (Internal_server_error, tbl, [SELECT; SELECT; INSERT])) \/
      (~ username_taken tbl (UserCreate.username user) /\
       ~ email_taken tbl (UserCreate.email user) /\
       passes_checks user = true /\
       post_users b tbl
       = (Ok_user (UserResponse.from_orm (new_row tbl user)), tbl ++ [new_row tbl user],
          [SELECT; SELECT; INSERT; SELECT])))).
Proof.
  intros Hvalid.
  destruct (model_validate_cases b Hvalid)
    as [(user & Hm & _ & _ & _ & Hv & Ha & _) | (errors & Hm & Hne)].
  - right. exists user. split; [exact Hm|]. split; [exact Hv|]. split; [exact Ha|].
    rewrite (post_users_validated b tbl user Hm).
    destruct (create_user_cases user tbl)
      as [[Hu E] | [(Hu & He & E) | [(Hu & He & Hc & c & E) | (Hu & He & Hc & E)]]];
      rewrite E; cbn [outcome table_after trace fst snd response_of_exn]; auto 10.
  - left. exists errors. split; [exact Hm|]. split; [exact Hne|].
    unfold post_users. rewrite Hm. destruct (serialisable b); reflexivity.
Qed.



(** An infinite rating: the validator refuses it and the answer is a server
    error, the table untouched. *)
Example test_infinite_rating :
  UserCreate.rating_must_be_valid (Some (S754_infinity false))
  = inl (ValueError "Rating must be between 1.0 and 5.0") /\
  post_users (H := permissive_email) (H0 := numbers_only)
    (sample_body "testuser" (Body.Number (S754_infinity false))) []
  = (Internal_server_error, [], []).
Proof. split; vm_compute; reflexivity. Qed.

(** The validation layer and the checked constraints of the table on the
    same number.  On a rating the validator accepts, the two constraints,
    as the storage engine evaluates them, pass exactly when the rating is
    one of 1.0, 1.5, ..., 5.0 or above one by no more than the tolerance,
    and fail exactly when it is below one by no more than the tolerance:
    the tolerance of the validator is two-sided, the integer part taken by
    [%] is not. *)
Theorem validator_and_constraints (v : float) :
  valid v = true ->
  UserCreate.rating_must_be_valid (Some v) = inr v ->
  (checked_constraints v = true <-> at_or_above_allowed (F2Q v)) /\
  (checked_constraints v = false <-> just_below_allowed (F2Q v)).
Proof. apply checked_constraints_accepted_iff. Qed.

Lemma validator_and_constraints_witness :
  (checked_constraints below_4_5 = true <-> at_or_above_allowed (F2Q below_4_5)) /\
  (checked_constraints below_4_5 = false <-> just_below_allowed (F2Q below_4_5)).
Proof.
  apply (validator_and_constraints below_4_5); vm_compute; reflexivity.
Defined.

(** The largest number below 4.5 is accepted by the validator and refused
    by the increment constraint: [create_user] raises. *)
Example create_user_below_4_5 :
  accepted below_4_5 /\
  checked_constraints below_4_5 = false /\
  create_user (sample_user_rated "testuser" below_4_5) []
  = (inl (IntegrityError "ck_users_rating_increment"), [], [SELECT; SELECT; INSERT]).
Proof. repeat split; vm_compute; reflexivity. Qed.

(** ** Tables filled through the endpoint *)

Lemma post_users_table_cases `{EmailStr} `{LaxFloat} (b : Body.t) (tbl : table) :
  (forall v, Body.rating b = Body.Number v -> valid v = true) ->
  table_after (post_users b tbl) = tbl \/
  exists user,
    valid (UserCreate.rating user) = true /\ accepted (UserCreate.rating user) /\
    passes_checks user = true /\
    table_after (post_users b tbl) = tbl ++ [new_row tbl user].
Proof.
  intros Hvalid.
  destruct (post_users_cases b tbl Hvalid)
    as [(errors & Hm & Hne & E) |
        (user & Hm & Hv & Ha &
         [[Hu E] | [(Hu & He & E) | [(Hu & He & Hc & E) | (Hu & He & Hc & E)]]])];
    rewrite E; cbn [table_after fst snd]; auto.
  right. exists user. auto.
Qed.

Lemma serve_keeps_validated `{EmailStr} `{LaxFloat} (bodies : list Body.t) : forall tbl,
  (forall b v, In b bodies -> Body.rating b = Body.Number v -> valid v = true) ->
  Forall validated_rating tbl -> Forall validated_rating (serve bodies tbl).
Proof.
  induction bodies as [|b bodies IH]; intros tbl Hvalid Ht; [exact Ht|].
  cbn [serve fold_left]. apply IH.
  { intros b' v Hin. apply Hvalid. right. exact Hin. }
  destruct (post_users_table_cases b tbl) as [E | (user & Hv & Ha & Hc & E)];
    [intros v; apply Hvalid; left; reflexivity | rewrite E; exact Ht |].
  rewrite E. apply Forall_app. split; [exact Ht|]. constructor; [|constructor].
  destruct (accepted_units _ Hv Ha) as (Hf & _).
  exists (UserCreate.rating user). cbn [new_row User.rating].
  split; [apply bind_rating_finite; exact Hf|]. split; [exact Hv|]. split; [exact Ha|].
  rewrite (passes_checks_finite _ Hf) in Hc.
  apply (checked_constraints_accepted_iff _ Hv Ha). exact Hc.
Qed.

(** Whatever requests [POST /users/] has served since the table was empty,
    whether they succeeded or not, the table holds no two rows with the same
    key, name or address, and every stored rating is a number that the
    validator accepts and that is one of 1.0, 1.5, ..., 5.0 or above one by
    no more than the tolerance: what the validator lets through and the
    checked constraints refuse never reaches the table. *)
Theorem served_table_ok `{EmailStr} `{LaxFloat} (bodies : list Body.t) :
  (forall b v, In b bodies -> Body.rating b = Body.Number v -> valid v = true) ->
  table_ok (serve bodies []) /\
  Forall (fun u => exists v, User.rating u = Some v /\
                             UserCreate.rating_must_be_valid (Some v) = inr v /\
                             at_or_above_allowed (F2Q v))
         (serve bodies []).
Proof.
  intros Hvalid. split.
  - apply serve_keeps_table_ok. repeat split; constructor.
  - pose proof (serve_keeps_validated bodies [] Hvalid (Forall_nil _)) as Hs.
    rewrite Forall_forall in *. intros u Hu.
    destruct (Hs u Hu) as (v & Hr & _ & Ha & Hab). exists v. auto.
Qed.

Lemma served_table_ok_witness :
  table_ok (serve (H := permissive_email) (H0 := numbers_only)
              [sample_body "a" (Body.Number lit_4_5);
               sample_body "b" (Body.Number below_4_5);
               sample_body "c" (Body.Number lit_3_2)] []) /\
  Forall (fun u => exists v, User.rating u = Some v /\
                             UserCreate.rating_must_be_valid (Some v) = inr v /\
                             at_or_above_allowed (F2Q v))
         (serve (H := permissive_email) (H0 := numbers_only)
            [sample_body "a" (Body.Number lit_4_5);
             sample_body "b" (Body.Number below_4_5);
             sample_body "c" (Body.Number lit_3_2)] []).
Proof.
  apply (served_table_ok (H := permissive_email) (H0 := numbers_only)
           [sample_body "a" (Body.Number lit_4_5);
            sample_body "b" (Body.Number below_4_5);
            sample_body "c" (Body.Number lit_3_2)]).
  intros b v [<- | [<- | [<- | []]]] Hr; injection Hr as <-; vm_compute; reflexivity.
Defined.

(** ** Pages *)

Lemma firstn_glue {A} (a b : nat) : forall l : list A,
  firstn a l ++ firstn b (skipn a l) = firstn (a + b) l.
Proof.
  induction a as [|a IH]; intros l; [reflexivity|].
  destruct l as [|x l]; cbn [firstn skipn Nat.add app].
  - rewrite firstn_nil. reflexivity.
  - rewrite IH. reflexivity.
Qed.

(** A page is a run of consecutive rows in table order, for every offset
    and limit a 64-bit integer holds.  A negative [skip] skips nothing and
    a negative [limit] is no limit: the page then runs to the end of the
    table.  Otherwise entry [i] of the page is row [skip + i] of the table,
    the page has [limit] rows when the table has that many left after the
    first [skip], and all that are left otherwise; past the end of the
    table it is empty.  The table is left as it was. *)
Theorem read_users_page (skip limit : Z) (tbl : table) :
  User.int64_min <= skip <= User.int64_max ->
  User.int64_min <= limit <= User.int64_max ->
  let first := Z.to_nat (Z.max 0 skip) in
  exists page,
    read_users skip limit tbl = (inr page, tbl, [SELECT]) /\
    (limit < 0 -> page = skipn first tbl) /\
    (0 <= limit ->
     List.length page = Nat.min (Z.to_nat limit) (List.length tbl - first)) /\
    (forall i, limit < 0 \/ Z.of_nat i < limit ->
               nth_error page i = nth_error tbl (first + i)) /\
    (forall i, 0 <= limit <= Z.of_nat i -> nth_error page i = None).
Proof.
  intros _ _ first.
  assert (Hfirst : Z.to_nat skip = first) by (unfold first; lia).
  unfold read_users, bind, query_offset_limit_all, ret. rewrite Hfirst.
  eexists. split; [cbn [app]; reflexivity|].
  destruct (Z.ltb_spec limit 0) as [Hneg | Hpos].
  - split; [reflexivity|]. split; [lia|]. split.
    + intros i _. apply nth_error_skipn.
    + intros i Hi. lia.
  - split; [lia|]. split.
    + intros _. rewrite length_firstn, length_skipn. reflexivity.
    + split; intros i Hi; rewrite nth_error_firstn.
      * replace (i <? Z.to_nat limit)%nat with true
          by (symmetry; apply Nat.ltb_lt; lia).
        apply nth_error_skipn.
      * replace (i <? Z.to_nat limit)%nat with false
          by (symmetry; apply Nat.ltb_ge; lia).
        reflexivity.
Qed.

Lemma read_users_page_witness :
  let first := Z.to_nat (Z.max 0 (-1)) in
  exists page,
    read_users (-1) (-1) [sample_row] = (inr page, [sample_row], [SELECT]) /\
    (-1 < 0 -> page = skipn first [sample_row]) /\
    (0 <= -1 ->
     List.length page = Nat.min (Z.to_nat (-1)) (List.length [sample_row] - first)) /\
    (forall i, -1 < 0 \/ Z.of_nat i < -1 ->
               nth_error page i = nth_error [sample_row] (first + i)) /\
    (forall i, 0 <= -1 <= Z.of_nat i -> nth_error page i = None).
Proof.
  apply (read_users_page (-1) (-1) [sample_row]); vm_compute; split; discriminate.
Defined.

(** Pages fit together without gap or overlap: for offsets and limits that
    are not negative, the page of [a] rows at [skip] followed by the page
    of [b] rows at [skip + a] is the page of [a + b] rows at [skip]; and
    from offset 0, a limit that reaches the length of the table returns the
    whole table. *)
Theorem read_users_pages_glue (skip a b : Z) (tbl : table) :
  0 <= skip -> 0 <= a -> 0 <= b -> skip + a + b <= User.int64_max ->
  exists p1 p2,
    outcome (read_users skip a tbl) = inr p1 /\
    outcome (read_users (skip + a) b tbl) = inr p2 /\
    outcome (read_users skip (a + b) tbl) = inr (p1 ++ p2) /\
    (Z.of_nat (List.length tbl) <= a -> outcome (read_users 0 a tbl) = inr tbl).
Proof.
  intros Hs Ha Hb _.
  exists (firstn (Z.to_nat a) (skipn (Z.to_nat skip) tbl)),
         (firstn (Z.to_nat b) (skipn (Z.to_nat (skip + a)) tbl)).
  unfold read_users, bind, query_offset_limit_all, ret, outcome.
  cbn [fst snd].
  replace (a <? 0) with false by (symmetry; apply Z.ltb_ge; lia).
  replace (b <? 0) with false by (symmetry; apply Z.ltb_ge; lia).
  replace (a + b <? 0) with false by (symmetry; apply Z.ltb_ge; lia).
  repeat split.
  - rewrite !Z2Nat.inj_add by lia.
    rewrite (Nat.add_comm (Z.to_nat skip) (Z.to_nat a)), <- skipn_skipn, firstn_glue.
    reflexivity.
  - intros Hlen. cbn [Z.to_nat skipn]. rewrite firstn_all2 by lia. reflexivity.
Qed.

Lemma read_users_pages_glue_witness :
  exists p1 p2,
    outcome (read_users 0 1 [sample_row]) = inr p1 /\
    outcome (read_users (0 + 1) 1 [sample_row]) = inr p2 /\
    outcome (read_users 0 (1 + 1) [sample_row]) = inr (p1 ++ p2) /\
    (Z.of_nat (List.length [sample_row]) <= 1 ->
     outcome (read_users 0 1 [sample_row]) = inr [sample_row]).
Proof.
  apply (read_users_pages_glue 0 1 1 [sample_row]); vm_compute; discriminate.
Defined.

Lemma post_users_ok_inv `{EmailStr} `{LaxFloat} (b : Body.t) (tbl : table)
    (u : UserResponse.t) :
  outcome (post_users b tbl) = Ok_user u ->
  exists user,
    UserCreate.model_validate b = inr (inr user) /\
    passes_checks user = true /\
    u = UserResponse.from_orm (new_row tbl user) /\
    post_users b tbl
    = (Ok_user u, tbl ++ [new_row tbl user], [SELECT; SELECT; INSERT; SELECT]).
Proof.
  unfold post_users.
  destruct (UserCreate.model_validate b) as [e | [errors | user]]; try discriminate.
  { destruct (serialisable b); discriminate. }
  destruct (create_user_cases user tbl)
    as [[_ E] | [(_ & _ & E) | [(_ & _ & _ & c & E) | (_ & _ & Hc & E)]]];
    rewrite E; cbn [outcome fst snd response_of_exn]; try discriminate.
  intros Hu. injection Hu as <-. exists user. repeat split; assumption.
Qed.

(** A created user is listed as it was returned: after a successful request
    the listing of the whole table ends with the record of the response, and
    the page of one row at the old length of the table is that record. *)
Theorem created_user_is_listed `{EmailStr} `{LaxFloat} (b : Body.t) (tbl : table)
    (u : UserResponse.t) :
  outcome (post_users b tbl) = Ok_user u ->
  outcome (get_users (Z.of_nat (List.length tbl)) 1 (table_after (post_users b tbl)))
  = Ok_users [u] /\
  outcome (get_users 0 (Z.of_nat (S (List.length tbl))) (table_after (post_users b tbl)))
  = Ok_users (map UserResponse.from_orm tbl ++ [u]).
Proof.
  intros Hu. destruct (post_users_ok_inv b tbl u Hu) as (user & _ & _ & -> & E).
  rewrite E. cbn [table_after fst snd].
  unfold get_users, read_users, bind, query_offset_limit_all, ret, outcome.
  cbn [fst snd]. split.
  - rewrite Nat2Z.id, skipn_app, skipn_all, Nat.sub_diag. reflexivity.
  - replace (Z.of_nat (S (List.length tbl)) <? 0) with false
      by (symmetry; apply Z.ltb_ge; lia).
    cbn [Z.to_nat skipn]. rewrite firstn_all2 by (rewrite length_app; cbn; lia).
    rewrite map_app. reflexivity.
Qed.

Lemma created_user_is_listed_witness :
  exists u tbl',
    outcome (get_users (Z.of_nat 1) 1 tbl') = Ok_users [u] /\
    outcome (get_users 0 (Z.of_nat 2) tbl')
    = Ok_users (map UserResponse.from_orm [sample_row] ++ [u]).
Proof.
  eexists. eexists.
  apply (created_user_is_listed (H := permissive_email) (H0 := numbers_only)
           (sample_body "testuser" (Body.Number lit_4_5)) [sample_row]).
  vm_compute. reflexivity.
Defined.

(** On a well-formed number the validator either returns its argument as it
    is or raises [ValueError] with one of its two messages: the exceptions
    of [round] (on NaN and the infinities) and of the conversion of its
    result are out of reach behind the range check. *)
Theorem rating_must_be_valid_outcomes (v : float) :
  valid v = true ->
  match UserCreate.rating_must_be_valid (Some v) with
  | inr w => w = v
  | inl e => e = ValueError UserCreate.range_message \/
             e = ValueError UserCreate.increment_message
  end.
Proof.
  intros Hv. destruct (validator_outcomes v Hv) as [Ha | [-> | ->]]; auto.
  unfold accepted in Ha. rewrite Ha. reflexivity.
Qed.

Lemma rating_must_be_valid_outcomes_witness :
  match UserCreate.rating_must_be_valid (Some (S754_infinity false)) with
  | inr w => w = S754_infinity false
  | inl e => e = ValueError UserCreate.range_message \/
             e = ValueError UserCreate.increment_message
  end.
Proof.
  apply (rating_must_be_valid_outcomes (S754_infinity false)). reflexivity.
Defined.

(** ** The rating from the request to the response *)

(** A stored rating that the validator accepted is read as the multiple of
    0.5 it is near. *)
Lemma read_rating_accepted v :
  valid v = true -> accepted v ->
  2 <= Qround_half_even (F2Q v * 2) <= 10 /\
  User.read_rating v = User.of_decimal (5 * Qround_half_even (F2Q v * 2)).
Proof.
  intros Hv Ha. destruct (accepted_units v Hv Ha) as (Hf & [H1 H5] & Ht).
  pose proof (accepted_nearest_integer v Hv Ha) as Hk.
  pose proof U_pos as HU.
  assert (Ek : Qround_half_even (F2Q v * 2) = round_half_even_div (2 * F2Z v) U).
  { unfold Qround_half_even, F2Q, Qmult. cbn [Qnum Qden].
    rewrite Pos.mul_1_r, (Z.mul_comm (F2Z v) 2). reflexivity. }
  rewrite Ek. split; [exact Hk|].
  assert (Hr : in_range v = true).
  { rewrite in_range_correct by assumption. rewrite Hf.
    apply andb_true_intro. split; [apply Z.leb_le | apply Z.leb_le]; assumption. }
  destruct (in_range_shape v Hv Hr) as (m & e & -> & _ & _).
  set (n := F2Z (S754_finite false m e)) in *.
  set (k := round_half_even_div (2 * n) U) in *.
  assert (Hd : User.to_decimal (S754_finite false m e) = 5 * k).
  { unfold User.to_decimal. fold n. apply round_half_even_div_unique; [exact HU|].
    change (10 ^ 9) with 1000000000 in Ht. lia. }
  unfold User.read_rating. rewrite Hd.
  replace (5 * k =? 0) with false by (symmetry; apply Z.eqb_neq; lia).
  reflexivity.
Qed.

(** The rating of the response is the multiple of 0.5 nearest to the rating
    of the request, as a well-formed number; when the request carries a
    multiple of 0.5 itself, the response returns it unchanged. *)
Theorem rating_round_trip `{EmailStr} `{LaxFloat} (b : Body.t) (tbl : table) (v : float)
    (u : UserResponse.t) :
  Body.rating b = Body.Number v -> valid v = true ->
  outcome (post_users b tbl) = Ok_user u ->
  exists g,
    UserResponse.rating u = Some g /\ valid g = true /\ is_finite g = true /\
    (F2Q g * 2 == inject_Z (Qround_half_even (F2Q v * 2)))%Q /\
    ((F2Q v * 2 == inject_Z (Qround_half_even (F2Q v * 2)))%Q -> g = v).
Proof.
  intros Hr Hv Hu.
  destruct (post_users_ok_inv b tbl u Hu) as (user & Hm & _ & -> & _).
  destruct (model_validate_cases b)
    as [(user' & Hm' & _ & _ & _ & _ & Ha & Hrat) | (errors & Hm' & _)].
  { intros v' Hv'. rewrite Hr in Hv'. injection Hv' as <-. exact Hv. }
  2:{ rewrite Hm in Hm'. discriminate. }
  rewrite Hm in Hm'. injection Hm' as <-. rewrite Hr in Hrat.
  assert (Hrv : UserCreate.rating user = v).
  { destruct Hrat as [[Hc _] | Hc]; cbn in Hc; [discriminate | congruence]. }
  rewrite Hrv in *.
  destruct (accepted_units v Hv Ha) as (Hf & _).
  destruct (read_rating_accepted v Hv Ha) as [Hk Hread].
  set (k := Qround_half_even (F2Q v * 2)) in *.
  destruct (read_back_close_facts (5 * k) (read_back_close_in_range (5 * k) ltac:(lia)))
    as (Hgv & Hgf & _ & Hge).
  assert (Hg2 : 2 * F2Z (User.of_decimal (5 * k)) = k * U).
  { assert (Hmod : (5 * k) mod 5 = 0) by (rewrite Z.mul_comm; apply Z.mod_mul; discriminate).
    specialize (Hge Hmod). lia. }
  exists (User.of_decimal (5 * k)).
  split.
  { cbn [UserResponse.from_orm UserResponse.rating new_row User.rating].
    rewrite Hrv, (bind_rating_finite v Hf). cbn [option_map]. rewrite Hread. reflexivity. }
  split; [exact Hgv|]. split; [exact Hgf|]. split.
  - unfold Qeq, F2Q, Qmult, inject_Z. cbn [Qnum Qden]. rewrite Pos.mul_1_r. fold U. lia.
  - intros Hex. unfold Qeq, F2Q, Qmult, inject_Z in Hex. cbn [Qnum Qden] in Hex.
    rewrite Pos.mul_1_r in Hex. fold U in Hex. fold k in Hex.
    assert (Hval : F2Z (User.of_decimal (5 * k)) = F2Z v) by lia.
    pose proof U_pos as HU.
    destruct (User.of_decimal (5 * k)) as [s | s | | s m e] eqn:Eg; try discriminate.
    { cbn [F2Z] in Hg2. nia. }
    destruct v as [s' | s' | | s' m' e']; try (cbn [F2Z] in Hex; nia).
    apply F2Z_inj; assumption.
Qed.

Lemma rating_round_trip_witness :
  exists g,
    Some lit_4_5 = Some g /\ valid g = true /\ is_finite g = true /\
    (F2Q g * 2 == inject_Z (Qround_half_even (F2Q lit_4_5 * 2)))%Q /\
    ((F2Q lit_4_5 * 2 == inject_Z (Qround_half_even (F2Q lit_4_5 * 2)))%Q -> g = lit_4_5).
Proof.
  apply (rating_round_trip (H := permissive_email) (H0 := numbers_only)
           (sample_body "testuser" (Body.Number lit_4_5)) [] lit_4_5
           {| UserResponse.id := 1; UserResponse.username := "testuser";
              UserResponse.email := "testuser@example.com";
              UserResponse.full_name := None;
              UserResponse.rating := Some lit_4_5 |}).
  - reflexivity.
  - vm_compute. reflexivity.
  - vm_compute. reflexivity.
Defined.

(** ** Keys *)

Lemma fold_max_upper (l : list Z) (n : Z) :
  0 <= n -> (forall x, In x l -> x <= n) -> fold_right Z.max 0 l <= n.
Proof.
  intros Hn. induction l as [|y l IH]; intros Hl; cbn [fold_right]; [exact Hn|].
  apply Z.max_lub.
  - apply Hl. left. reflexivity.
  - apply IH. intros x Hx. apply Hl. right. exact Hx.
Qed.

Lemma fold_max_lower (l : list Z) (x : Z) :
  In x l -> x <= fold_right Z.max 0 l.
Proof.
  induction l as [|y l IH]; intros Hin; [contradiction|]. cbn [fold_right].
  destruct Hin as [-> | Hin]; [apply Z.le_max_l|].
  specialize (IH Hin). lia.
Qed.

Lemma next_id_consecutive tbl :
  map User.id tbl = map Z.of_nat (seq 1 (List.length tbl)) ->
  next_id tbl = Z.of_nat (S (List.length tbl)).
Proof.
  intros Hids. unfold next_id. rewrite Hids.
  set (n := List.length tbl).
  assert (Hmax : fold_right Z.max 0 (map Z.of_nat (seq 1 n)) = Z.of_nat n).
  { apply Z.le_antisymm.
    - apply fold_max_upper; [lia|]. intros x Hx.
      apply in_map_iff in Hx as (i & <- & Hi). apply in_seq in Hi. lia.
    - destruct n as [|n]; [cbn; lia|]. apply fold_max_lower.
      apply in_map_iff. exists (S n). split; [reflexivity|]. apply in_seq. lia. }
  rewrite Hmax. lia.
Qed.

Lemma serve_keeps_ids `{EmailStr} `{LaxFloat} (bodies : list Body.t) : forall tbl,
  map User.id tbl = map Z.of_nat (seq 1 (List.length tbl)) ->
  map User.id (serve bodies tbl)
  = map Z.of_nat (seq 1 (List.length (serve bodies tbl))).
Proof.
  induction bodies as [|b bodies IH]; intros tbl Hids; [exact Hids|].
  cbn [serve fold_left]. apply IH.
  destruct (post_users_table_after b tbl) as [E | [user E]]; rewrite E; [exact Hids|].
  destruct (create_user_table_after user tbl) as [E' | (_ & _ & _ & E')];
    rewrite E'; [exact Hids|].
  cbn [table_after fst snd].
  rewrite map_app, length_app, Nat.add_comm. cbn [List.length Nat.add map new_row User.id].
  rewrite seq_S, map_app, (next_id_consecutive tbl Hids), <- Hids. reflexivity.
Qed.

(** Keys are handed out in the order of creation: in a table filled by
    [POST /users/] from empty, the rows carry the keys 1, 2, 3, ... in table
    order, so the order of the listing is also the ascending order of the
    keys, and a refused request uses up no key. *)
Theorem served_ids_consecutive `{EmailStr} `{LaxFloat} (bodies : list Body.t) :
  map User.id (serve bodies [])
  = map Z.of_nat (seq 1 (List.length (serve bodies []))).
Proof.
  apply serve_keeps_ids. reflexivity.
Qed.
